(** * Fitness-certificate store: ingestion, latest-record view, expiry report

    A shallow embedding of [fitness_certificates_ai.py]: the date
    normaliser [_to_dt], the column parser [_parse_date_series], the CSV
    upsert [upsert_from_csv], the two reporter queries [expiring_within]
    and [total_active], and the CRUD facade ([list_certificates],
    [add_certificate], [update_certificate]).

    Conventions of the embedding.
    - Python [str] is [string]; case mapping and stripping are the ASCII ones.
    - A [datetime] is the number of microseconds of IST wall-clock time
      elapsed since the midnight that starts proleptic-Gregorian ordinal 0.
      Every datetime the module stores or compares carries (or is given)
      the fixed +05:30 offset, so wall-clock order is instant order.
    - A Python exception is a [Raise] outcome; [None] is [option]'s [None].
    - pandas enters through the two parsers the module is modelled over,
      pytz through [localize], SQLite through the table and its integer
      ids.
    - The table is the list of its rows in insertion order. *)

From Stdlib Require Import ZArith List String Ascii Bool Lia Permutation.
From Stdlib Require OrderedTypeEx Sorted.
From stdpp Require Import gmap strings.
Import ListNotations.

Local Open Scope string_scope.
Local Open Scope list_scope.
Local Open Scope Z_scope.

(* ===================================================================== *)
(** ** Outcomes: a return value or a raised exception                     *)
(* ===================================================================== *)

Inductive exn : Type :=
| ValueError (msg : string)
| OverflowError (msg : string)
| IntegrityError (constraint : string).

Inductive outcome (A : Type) : Type :=
| Ret (a : A)
| Raise (e : exn).
Arguments Ret {A} a.
Arguments Raise {A} e.

Definition obind {A B} (m : outcome A) (k : A -> outcome B) : outcome B :=
  match m with
  | Ret a => k a
  | Raise e => Raise e
  end.

Declare Scope outcome_scope.
Delimit Scope outcome_scope with outcome.
Notation "'do' x <- m ; k" := (obind m (fun x => k))
  (at level 10, x name, m at level 100, k at level 200) : outcome_scope.
Local Open Scope outcome_scope.

(* ===================================================================== *)
(** ** Strings                                                            *)
(* ===================================================================== *)

Module Str.

Definition is_space (a : ascii) : bool :=
  let n := nat_of_ascii a in
  ((9 <=? n) && (n <=? 13))%nat || (n =? 32)%nat || ((28 <=? n) && (n <=? 31))%nat.

Definition is_digit (a : ascii) : bool :=
  let n := nat_of_ascii a in ((48 <=? n) && (n <=? 57))%nat.

Definition digit_val (a : ascii) : Z := Z.of_nat (nat_of_ascii a) - 48.

Definition lower_ascii (a : ascii) : ascii :=
  let n := nat_of_ascii a in
  if ((65 <=? n) && (n <=? 90))%nat then ascii_of_nat (n + 32) else a.

Definition upper_ascii (a : ascii) : ascii :=
  let n := nat_of_ascii a in
  if ((97 <=? n) && (n <=? 122))%nat then ascii_of_nat (n - 32) else a.

Fixpoint map_ascii (f : ascii -> ascii) (s : string) : string :=
  match s with
  | EmptyString => EmptyString
  | String a s' => String (f a) (map_ascii f s')
  end.

(** [s.lower()], [s.upper()] *)
Definition lower : string -> string := map_ascii lower_ascii.
Definition upper : string -> string := map_ascii upper_ascii.

Fixpoint lstrip (s : string) : string :=
  match s with
  | String a s' => if is_space a then lstrip s' else s
  | EmptyString => EmptyString
  end.

Fixpoint rev_onto (s acc : string) : string :=
  match s with
  | EmptyString => acc
  | String a s' => rev_onto s' (String a acc)
  end.

Definition rev (s : string) : string := rev_onto s EmptyString.

(** [s.strip()] *)
Definition strip (s : string) : string := rev (lstrip (rev (lstrip s))).

(** [s.startswith(p)] *)
Definition startswith (p s : string) : bool := String.prefix p s.

(** [s[:n]] *)
Definition take (n : nat) (s : string) : string := String.substring 0 n s.

(** [s.replace(a, b)] for one-character [a] and [b] *)
Definition replace (a b : ascii) : string -> string :=
  map_ascii (fun c => if Ascii.eqb c a then b else c).

(** [bool(s)] for a [str] *)
Definition nonempty (s : string) : bool :=
  match s with EmptyString => false | _ => true end.

(** Zero-padded decimal of a non-negative number, [width] digits
    (["%02d"], ["%04d"], ["%06d"] of the strftime family). *)
Definition digit_char (d : Z) : ascii := ascii_of_nat (48 + Z.to_nat d).

Fixpoint pad_digits (width : nat) (n : Z) (acc : string) : string :=
  match width with
  | O => acc
  | S w => pad_digits w (n / 10) (String (digit_char (n mod 10)) acc)
  end.

Definition zfill (width : nat) (n : Z) : string := pad_digits width n EmptyString.

End Str.

(* ===================================================================== *)
(** ** Calendar arithmetic of Python's [datetime]                         *)
(* ===================================================================== *)

Definition datetime := Z.

Module Cal.

Definition US_PER_DAY : Z := 86400000000.

Definition is_leap (year : Z) : bool :=
  (year mod 4 =? 0) && (negb (year mod 100 =? 0) || (year mod 400 =? 0)).

Definition DAYS_IN_MONTH (month : Z) : Z :=
  match month with
  | 1 => 31 | 2 => 28 | 3 => 31 | 4 => 30 | 5 => 31 | 6 => 30
  | 7 => 31 | 8 => 31 | 9 => 30 | 10 => 31 | 11 => 30 | 12 => 31
  | _ => -1
  end.

Definition DAYS_BEFORE_MONTH (month : Z) : Z :=
  match month with
  | 1 => 0 | 2 => 31 | 3 => 59 | 4 => 90 | 5 => 120 | 6 => 151
  | 7 => 181 | 8 => 212 | 9 => 243 | 10 => 273 | 11 => 304 | 12 => 334
  | _ => -1
  end.

Definition days_before_year (year : Z) : Z :=
  let y := year - 1 in y * 365 + y / 4 - y / 100 + y / 400.

Definition days_in_month (year month : Z) : Z :=
  if (month =? 2) && is_leap year then 29 else DAYS_IN_MONTH month.

Definition days_before_month (year month : Z) : Z :=
  DAYS_BEFORE_MONTH month + (if (2 <? month) && is_leap year then 1 else 0).

Definition ymd2ord (year month day : Z) : Z :=
  days_before_year year + days_before_month year month + day.

(** [datetime.date(year, month, day)] accepts exactly these triples. *)
Definition valid_ymd (year month day : Z) : bool :=
  (1 <=? year) && (year <=? 9999) && (1 <=? month) && (month <=? 12)
  && (1 <=? day) && (day <=? days_in_month year month).

Definition MAX_ORDINAL : Z := 3652059.

Definition ord2ymd (n0 : Z) : Z * Z * Z :=
  let n := n0 - 1 in
  let n400 := n / 146097 in
  let n := n mod 146097 in
  let year := n400 * 400 + 1 in
  let n100 := n / 36524 in
  let n := n mod 36524 in
  let n4 := n / 1461 in
  let n := n mod 1461 in
  let n1 := n / 365 in
  let n := n mod 365 in
  let year := year + n100 * 100 + n4 * 4 + n1 in
  if (n1 =? 4) || (n100 =? 4) then (year - 1, 12, 31)
  else
    let leapyear := (n1 =? 3) && (negb (n4 =? 24) || (n100 =? 3)) in
    let month := Z.shiftr (n + 50) 5 in
    let preceding :=
      DAYS_BEFORE_MONTH month + (if (2 <? month) && leapyear then 1 else 0) in
    if n <? preceding then
      let month' := month - 1 in
      let preceding' :=
        preceding
        - (DAYS_IN_MONTH month' + (if (month' =? 2) && leapyear then 1 else 0)) in
      (year, month', n - preceding' + 1)
    else (year, month, n - preceding + 1).

(** Midnight of a calendar date. *)
Definition at_midnight (year month day : Z) : datetime :=
  ymd2ord year month day * US_PER_DAY.

(** [dt.date()], as the date's ordinal; [(a.date() - b.date()).days] is
    the difference of the two ordinals. *)
Definition date (dt : datetime) : Z := dt / US_PER_DAY.

(** Microsecond of the day. *)
Definition time_us (dt : datetime) : Z := dt mod US_PER_DAY.

(** [dt.strftime("%d/%m/%Y")] *)
Definition strftime_dmY (dt : datetime) : string :=
  let '(y, m, d) := ord2ymd (date dt) in
  Str.zfill 2 d +:+ "/" +:+ Str.zfill 2 m +:+ "/" +:+ Str.zfill 4 y.

(** [dt.isoformat(sep)] of a naive datetime (the table gives naive values
    back): the fraction is printed only when it is not zero. *)
Definition isoformat_sep (sep : string) (dt : datetime) : string :=
  let '(y, m, d) := ord2ymd (date dt) in
  let us := time_us dt in
  let secs := us / 1000000 in
  let frac := us mod 1000000 in
  Str.zfill 4 y +:+ "-" +:+ Str.zfill 2 m +:+ "-" +:+ Str.zfill 2 d +:+ sep
  +:+ Str.zfill 2 (secs / 3600) +:+ ":" +:+ Str.zfill 2 ((secs / 60) mod 60)
  +:+ ":" +:+ Str.zfill 2 (secs mod 60)
  +:+ (if frac =? 0 then "" else "." +:+ Str.zfill 6 frac).

Definition isoformat : datetime -> string := isoformat_sep "T".

End Cal.

(* ===================================================================== *)
(** ** [datetime.strptime] for the formats the module uses               *)
(* ===================================================================== *)

Module Strptime.

Inductive directive : Type :=
| DY                 (* %Y : \d\d\d\d *)
| Dm                 (* %m : 1[0-2]|0[1-9]|[1-9] *)
| Dd                 (* %d : 3[0-1]|[1-2]\d|0[1-9]|[1-9]| [1-9] *)
| DLit (a : ascii).

Definition format := list directive.

(** A format string such as ["%d/%m/%Y"] read into its directives. *)
Fixpoint parse_format (fmt : string) : format :=
  match fmt with
  | EmptyString => []
  | String "%" (String c r) =>
      (if Ascii.eqb c "Y" then DY
       else if Ascii.eqb c "m" then Dm
       else if Ascii.eqb c "d" then Dd
       else DLit c) :: parse_format r
  | String a r => DLit a :: parse_format r
  end.

Record fields : Type := mk_fields { f_year : Z; f_month : Z; f_day : Z }.

Definition default_fields : fields := mk_fields 1900 1 1.

Definition in_range (lo hi : nat) (a : ascii) : bool :=
  let n := nat_of_ascii a in ((lo <=? n) && (n <=? hi))%nat.

(** One alternative of a directive's regular expression, two characters
    wide or one character wide: the value it denotes and the rest. *)
Definition two (p : ascii -> ascii -> bool) (s : string) : list (Z * string) :=
  match s with
  | String a (String b r) =>
      if p a b then [(10 * Str.digit_val a + Str.digit_val b, r)] else []
  | _ => []
  end.

Definition one (p : ascii -> bool) (s : string) : list (Z * string) :=
  match s with
  | String a r => if p a then [(Str.digit_val a, r)] else []
  | _ => []
  end.

Definition space_digit (s : string) : list (Z * string) :=
  match s with
  | String a (String b r) =>
      if Ascii.eqb a " " && in_range 49 57 b then [(Str.digit_val b, r)] else []
  | _ => []
  end.

Definition alts_Y (s : string) : list (Z * string) :=
  match s with
  | String a (String b (String c (String d r))) =>
      if Str.is_digit a && Str.is_digit b && Str.is_digit c && Str.is_digit d
      then [(1000 * Str.digit_val a + 100 * Str.digit_val b
             + 10 * Str.digit_val c + Str.digit_val d, r)]
      else []
  | _ => []
  end.

Definition alts_m (s : string) : list (Z * string) :=
  two (fun a b => Ascii.eqb a "1" && in_range 48 50 b) s
  ++ two (fun a b => Ascii.eqb a "0" && in_range 49 57 b) s
  ++ one (in_range 49 57) s.

Definition alts_d (s : string) : list (Z * string) :=
  two (fun a b => Ascii.eqb a "3" && in_range 48 49 b) s
  ++ two (fun a b => in_range 49 50 a && Str.is_digit b) s
  ++ two (fun a b => Ascii.eqb a "0" && in_range 49 57 b) s
  ++ one (in_range 49 57) s
  ++ space_digit s.

(** The first alternative, in order, for which the rest of the pattern
    matches: the backtracking of [re.match]. *)
Fixpoint first_match {A B} (k : A -> option B) (l : list A) : option B :=
  match l with
  | [] => None
  | a :: l' => match k a with Some b => Some b | None => first_match k l' end
  end.

Fixpoint match_items (items : format) (s : string) (acc : fields)
  : option (fields * string) :=
  match items with
  | [] => Some (acc, s)
  | DLit a :: items' =>
      match s with
      | String b r => if Ascii.eqb a b then match_items items' r acc else None
      | EmptyString => None
      end
  | DY :: items' =>
      first_match
        (fun vr => match_items items' (snd vr)
                     (mk_fields (fst vr) (f_month acc) (f_day acc)))
        (alts_Y s)
  | Dm :: items' =>
      first_match
        (fun vr => match_items items' (snd vr)
                     (mk_fields (f_year acc) (fst vr) (f_day acc)))
        (alts_m s)
  | Dd :: items' =>
      first_match
        (fun vr => match_items items' (snd vr)
                     (mk_fields (f_year acc) (f_month acc) (fst vr)))
        (alts_d s)
  end.

(** [datetime.strptime(s, fmt)]: the pattern must match a prefix, nothing
    may remain after it, and the fields must form a calendar date. *)
Definition strptime (s : string) (fmt : string) : outcome datetime :=
  match match_items (parse_format fmt) s default_fields with
  | None => Raise (ValueError "time data does not match format")
  | Some (f, rest) =>
      if Str.nonempty rest then Raise (ValueError "unconverted data remains")
      else if Cal.valid_ymd (f_year f) (f_month f) (f_day f)
      then Ret (Cal.at_midnight (f_year f) (f_month f) (f_day f))
      else Raise (ValueError "day is out of range for month")
  end.

End Strptime.

(* ===================================================================== *)
(** ** Python values reaching the module                                  *)
(* ===================================================================== *)

(** [PyDatetime] is a naive [datetime] (or pandas [Timestamp]), which is
    what the SQLite table and [pd.to_datetime] deliver.  [PyNaT] is
    pandas' missing-datetime object.  [PyOther] is any other object
    (number, boolean, float NaN), known by its [str()] and its truth
    value. *)
Inductive pyvalue : Type :=
| PyNone
| PyStr (s : string)
| PyDatetime (dt : datetime)
| PyNaT
| PyOther (text : string) (truth : bool).

(** [str(value)] *)
Definition py_str (v : pyvalue) : string :=
  match v with
  | PyNone => "None"
  | PyStr s => s
  | PyDatetime dt => Cal.isoformat_sep " " dt
  | PyNaT => "NaT"
  | PyOther text _ => text
  end.

(** [bool(value)] *)
Definition py_truth (v : pyvalue) : bool :=
  match v with
  | PyNone => false
  | PyStr s => Str.nonempty s
  | PyDatetime _ => true
  | PyNaT => true
  | PyOther _ t => t
  end.

(** [value in (None, "", "null", "NaT")].  Only [None] and a [str] compare
    equal to a member: [pd.NaT == "NaT"] is false, as is every comparison
    of [NaT] with a non-datetime. *)
Definition is_empty_marker (v : pyvalue) : bool :=
  match v with
  | PyNone => true
  | PyStr s => String.eqb s "" || String.eqb s "null" || String.eqb s "NaT"
  | _ => false
  end.

(** [isinstance(value, datetime)]: [Timestamp] and [NaTType] both derive
    from [datetime]. *)
Definition is_datetime_instance (v : pyvalue) : bool :=
  match v with
  | PyDatetime _ | PyNaT => true
  | _ => false
  end.

(** [IST.localize(dt)] on a naive datetime.  pytz normalizes the
    reading through UTC, which falls before the first representable
    instant for a reading on the first representable day: there it raises
    [OverflowError].  On every later day, the last one included, the
    wall-clock reading is kept and tagged. *)
Definition localizable (dt : datetime) : bool :=
  2 <=? Cal.date dt.

Definition localize (dt : datetime) : outcome datetime :=
  if localizable dt then Ret dt
  else Raise (OverflowError "date value out of range").

(** [IST.localize(pd.NaT)]: [NaT + timedelta] and [NaT.replace(...)] are
    [NaT] again, whose [tzinfo] is [None], and pytz's [normalize] refuses
    a datetime without tzinfo. *)
Definition localize_NaT : outcome datetime :=
  Raise (ValueError "Naive time - no tzinfo set").

(* ===================================================================== *)
(** ** pandas, as far as the module relies on it                          *)
(* ===================================================================== *)

(** The keyword sets [_parse_date_series] passes to [pd.to_datetime]
    ([errors="coerce"] is common to all of them). *)
Inductive to_datetime_kw : Type :=
| KwDefault                     (* dict(errors="coerce") *)
| KwDayfirst                    (* dict(errors="coerce", dayfirst=True) *)
| KwFormat (fmt : string).      (* dict(errors="coerce", format=fmt) *)

(** A column is the list of its cells.  A data frame is its column
    labels together with its rows, each row mapping labels to cells (the
    [r] of [for _, r in raw.iterrows()], read as [r[label]]). *)
Definition Series := list pyvalue.

Record DataFrame : Type := mk_df {
  df_columns : list string;
  df_rows : list (gmap string pyvalue)
}.

(** Small executable stand-ins for [pd.to_datetime], enough to run the
    model on ISO dates and on slash-separated dates.  Without a format
    pandas settles one from the first cell it can read, month first
    unless [dayfirst=True], and applies it to the whole column; with
    [format=] it applies that format to every cell. *)
Definition strptime_opt (s fmt : string) : option datetime :=
  match Strptime.strptime s fmt with Ret dt => Some dt | Raise _ => None end.

Definition fits (s fmt : string) : option string :=
  match strptime_opt s fmt with Some _ => Some fmt | None => None end.

Fixpoint guess_format (prefs : list string) (col : Series) : option string :=
  match col with
  | [] => None
  | PyStr s :: col' =>
      match Strptime.first_match (fits s) prefs with
      | Some fmt => Some fmt
      | None => guess_format prefs col'
      end
  | _ :: col' => guess_format prefs col'
  end.

Definition with_guess (prefs : list string) (col : Series) (s : string)
  : option datetime :=
  match guess_format prefs col with
  | Some fmt => strptime_opt s fmt
  | None => None
  end.

Definition sample_parse_cell
  (kw : to_datetime_kw) (col : Series) (v : pyvalue) : option datetime :=
  match v with
  | PyStr s =>
      match kw with
      | KwDefault => with_guess ["%Y-%m-%d"; "%m/%d/%Y"; "%d/%m/%Y"] col s
      | KwDayfirst => with_guess ["%Y-%m-%d"; "%d/%m/%Y"; "%m/%d/%Y"] col s
      | KwFormat fmt => strptime_opt s fmt
      end
  | _ => None
  end.

Definition sample_parse_scalar (s : string) : option datetime :=
  with_guess ["%Y-%m-%d"; "%d/%m/%Y"; "%m/%d/%Y"] [PyStr s] s.

(* ===================================================================== *)
(** ** The [certificates] table and the ORM session                       *)
(* ===================================================================== *)

Module Certificate.

(** The mapped columns the module reads or writes ([created_at] and
    [updated_at] are filled by the server and never read).  [id] is
    [None] until the row is inserted. *)
Record t : Type := mk {
  id : option Z;
  trainset_id : string;
  dept : string;
  status : option string;
  valid_from : option datetime;
  valid_to : datetime;
  source : option string
}.

Definition with_id (i : Z) (c : t) : t :=
  mk (Some i) (trainset_id c) (dept c) (status c) (valid_from c) (valid_to c)
     (source c).

End Certificate.

Definition table := list Certificate.t.

(** The columns of [UniqueConstraint("trainset_id","dept","valid_to")]. *)
Definition same_key (a b : Certificate.t) : bool :=
  String.eqb (Certificate.trainset_id a) (Certificate.trainset_id b)
  && String.eqb (Certificate.dept a) (Certificate.dept b)
  && (Certificate.valid_to a =? Certificate.valid_to b).

Definition same_id (a b : Certificate.t) : bool :=
  match Certificate.id a, Certificate.id b with
  | Some i, Some j => i =? j
  | _, _ => false
  end.

(** The integer primary key of a new row: one more than the largest. *)
Definition next_id (t : table) : Z :=
  1 + fold_right Z.max 0 (map (fun c => default 0 (Certificate.id c)) t).

Definition sql_insert (c : Certificate.t) (t : table) : outcome table :=
  if existsb (same_key c) t
  then Raise (IntegrityError "uq_cert_train_dept_to")
  else Ret (t ++ [Certificate.with_id (next_id t) c]).

Definition sql_update (c : Certificate.t) (t : table) : outcome table :=
  if existsb (fun r => same_key c r && negb (same_id r c)) t
  then Raise (IntegrityError "uq_cert_train_dept_to")
  else Ret (map (fun r => if same_id r c then c else r) t).

(** A session: the committed table, the transaction's own view of it,
    the objects added but not yet inserted, and the loaded objects whose
    attributes were assigned but not yet written. *)
Record sess : Type := mk_sess {
  committed : table;
  working : table;
  pending : list Certificate.t;
  dirty : list Certificate.t
}.

Definition session (A : Type) : Type := sess -> outcome A * sess.

Definition sret {A} (a : A) : session A := fun s => (Ret a, s).

Definition sbind {A B} (m : session A) (k : A -> session B) : session B :=
  fun s =>
    match m s with
    | (Ret a, s') => k a s'
    | (Raise e, s') => (Raise e, s')
    end.

Notation "'tx' x <- m ; k" := (sbind m (fun x => k))
  (at level 10, x name, m at level 100, k at level 200) : outcome_scope.

(** A computation that does not touch the session. *)
Definition lift {A} (m : outcome A) : session A := fun s => (m, s).

Fixpoint write_all (op : Certificate.t -> table -> outcome table)
  (objs : list Certificate.t) (t : table) : outcome table :=
  match objs with
  | [] => Ret t
  | c :: objs' => do t' <- op c t; write_all op objs' t'
  end.

(** The flush: UPDATE the dirty objects, INSERT the pending ones. *)
Definition flush : session unit :=
  fun s =>
    match (do t1 <- write_all sql_update (dirty s) (working s);
           write_all sql_insert (pending s) t1) with
    | Ret t2 => (Ret tt, mk_sess (committed s) t2 [] [])
    | Raise e => (Raise e, s)
    end.

(** [db.add(obj)] *)
Definition db_add (c : Certificate.t) : session unit :=
  fun s => (Ret tt, mk_sess (committed s) (working s) (pending s ++ [c]) (dirty s)).

(** An attribute assignment on a loaded object: the object, in its new
    state, waits for the flush. *)
Definition db_modified (c : Certificate.t) : session unit :=
  fun s => (Ret tt, mk_sess (committed s) (working s) (pending s) [c]).

(** [db.execute(query)]: the session flushes, then the query reads the
    transaction's view. *)
Definition db_execute {A} (query : table -> A) : session A :=
  tx _ <- flush; fun s => (Ret (query (working s)), s).

(** [db.get(Certificate, cert_id)], for a [cert_id] SQLite can bind: the
    lookup by primary key.  (Ids are SQLite integers, signed 64-bit; on
    a larger [cert_id] the driver raises [OverflowError] instead of
    looking anything up, which is why statements about an id that no
    row carries are made for [sqlite_int] ids.) *)
Definition db_get (cert_id : Z) : session (option Certificate.t) :=
  fun s =>
    (Ret (find (fun r => match Certificate.id r with
                         | Some i => i =? cert_id
                         | None => false
                         end) (working s)), s).

(** [db.commit()] *)
Definition db_commit : session unit :=
  tx _ <- flush;
  fun s => (Ret tt, mk_sess (working s) (working s) [] []).

(** [db.refresh(obj)]: the object as its row now stands. *)
Definition db_refresh (c : Certificate.t) : session Certificate.t :=
  fun s => (Ret (default c (find (same_key c) (working s))), s).

(** [with SessionLocal() as db: body]: what was not committed when the
    block is left, by [return] or by an exception, is discarded. *)
Definition with_session {A} (body : session A) (db : table) : outcome A * table :=
  let '(r, s) := body (mk_sess db db [] []) in (r, committed s).

(* ===================================================================== *)
(** ** Helpers of the module                                              *)
(* ===================================================================== *)

Definition _VALID_MAP : gmap string string :=
  list_to_map
    [("valid", "valid"); ("active", "valid"); ("ok", "valid");
     ("cleared", "valid"); ("1", "valid"); ("true", "valid"); ("v", "valid")].

Definition norm_label (c : string) : string :=
  Str.replace "/" "_" (Str.replace "-" "_" (Str.replace " " "_"
    (Str.lower (Str.strip c)))).

(** A row with its labels renamed. *)
Definition rename_row (f : string -> string) (r : gmap string pyvalue)
  : gmap string pyvalue :=
  list_to_map (map (fun kv => (f (fst kv), snd kv)) (map_to_list r)).

Definition _norm_cols (df : DataFrame) : DataFrame :=
  mk_df (map norm_label (df_columns df)) (map (rename_row norm_label) (df_rows df)).

(** [str.upper] and the slice [x[:8]] are the byte-wise ones: they are
    Python's on ASCII text. *)
Definition _dept_norm (x : pyvalue) : string :=
  if negb (py_truth x) then ""
  else
    let x := Str.upper (py_str x) in
    if Str.startswith "ROLLING" x then "RS"
    else if Str.startswith "SIG" x || Str.startswith "SIGNAL" x then "SIG"
    else if Str.startswith "TEL" x || Str.startswith "TELE" x then "TEL"
    else if String.eqb x "RS" || String.eqb x "SIG" || String.eqb x "TEL" then x
    else Str.take 8 x.

Fixpoint _pick (cols : list string) (cands : list string) : option string :=
  match cands with
  | [] => None
  | c :: cands' => if existsb (String.eqb c) cols then Some c else _pick cols cands'
  end.

Definition _valid_status_clause (status : option string) : bool :=
  match status with
  | None => true
  | Some st => bool_decide (is_Some (_VALID_MAP !! Str.lower st))
  end.

(** [df.empty] *)
Definition df_empty (df : DataFrame) : bool :=
  match df_columns df, df_rows df with
  | [], _ | _, [] => true
  | _, _ => false
  end.

(** [r[label]] *)
Definition cell (r : gmap string pyvalue) (label : string) : pyvalue :=
  default PyNone (r !! label).

(** [df[label]] *)
Definition get_column (df : DataFrame) (label : string) : Series :=
  map (fun r => cell r label) (df_rows df).

(** [df[label] = values] *)
Definition set_column (df : DataFrame) (label : string) (values : Series) : DataFrame :=
  mk_df (df_columns df)
        (zip_with (fun r v => <[label := v]> r) (df_rows df) values).

(** A cell of a datetime column, boxed as the row iterator hands it out. *)
Definition box_datetime (d : option datetime) : pyvalue :=
  match d with
  | Some dt => PyDatetime dt
  | None => PyNaT
  end.

(** Values of a decoded JSON body ([record], [patch]): never a datetime. *)
Inductive json : Type :=
| JNull
| JString (s : string)
| JOther (text : string) (truth : bool).

Definition py_of_json (j : json) : pyvalue :=
  match j with
  | JNull => PyNone
  | JString s => PyStr s
  | JOther text truth => PyOther text truth
  end.

(** [d.get(k)] and [d[k]] for a key that is present *)
Definition dict_get (d : gmap string json) (k : string) : pyvalue :=
  match d !! k with
  | Some j => py_of_json j
  | None => PyNone
  end.

(** [a or b] *)
Definition py_or (a b : pyvalue) : pyvalue := if py_truth a then a else b.

(** Stable sort by a total preorder given as a boolean test. *)
Fixpoint insert_by {A} (leb : A -> A -> bool) (x : A) (l : list A) : list A :=
  match l with
  | [] => [x]
  | y :: l' => if leb x y then x :: l else y :: insert_by leb x l'
  end.

Fixpoint sort_by {A} (leb : A -> A -> bool) (l : list A) : list A :=
  match l with
  | [] => []
  | x :: l' => insert_by leb x (sort_by leb l')
  end.

(** [a < b] on [str], by code point. *)
Definition str_ltb (a b : string) : bool :=
  match String.compare a b with Lt => true | _ => false end.

(* --------------------------------------------------------------------- *)
(** *** Result objects                                                    *)
(* --------------------------------------------------------------------- *)

(** [{"imported": _, "skipped": _, "error": _}] or
    [{"imported": _, "skipped": _, "detail": "ok"}] *)
Record upsert_result : Type := mk_upsert {
  imported : nat;
  skipped : nat;
  error : option string;
  detail : option string
}.

(** A row of [expiring_within] *)
Record expiring_row : Type := mk_expiring {
  train_id : string;
  department : string;
  expiry_date : string;
  days_to_expiry : Z
}.

(** A row of [list_certificates] *)
Record listed_row : Type := mk_listed {
  l_id : option Z;
  l_trainset_id : string;
  l_department : string;
  l_status : option string;
  l_valid_from : option string;
  l_valid_to : option string;
  l_source : option string
}.

Record listing : Type := mk_listing {
  rows : list listed_row;
  limit : Z;
  offset : Z;
  count : nat
}.

Inductive add_result : Type :=
| AddedId (id : option Z)               (* {"id": c.id} *)
| AddError (msg : string).              (* {"error": msg} *)

(** [{"updated": n}] or [{"updated": n, "error": msg}] *)
Record update_result : Type := mk_update {
  updated : Z;
  update_error : option string
}.

(** What [upsert_from_csv] is given: a path at which nothing exists, or
    a path together with the frame [_read_csv_flex] reads from it. *)
Inductive csv_source : Type :=
| NoFile (path : string)
| CsvFile (path : string) (df : DataFrame).

(** The cells of one row that the import loop reads; an absent optional
    column gives [None]. *)
Record csv_row : Type := mk_csv_row {
  r_train : pyvalue;
  r_dept : pyvalue;
  r_stat : option pyvalue;
  r_vfrom : option pyvalue;
  r_vto : pyvalue
}.

(* --------------------------------------------------------------------- *)
(** *** The latest record of every (trainset_id, dept)                    *)
(* --------------------------------------------------------------------- *)

Definition same_group (a b : Certificate.t) : bool :=
  String.eqb (Certificate.trainset_id a) (Certificate.trainset_id b)
  && String.eqb (Certificate.dept a) (Certificate.dept b).

(** [GROUP BY trainset_id, dept]: one representative per group, in order
    of first appearance. *)
Fixpoint group_by (t : table) (seen : list Certificate.t) : list Certificate.t :=
  match t with
  | [] => []
  | c :: t' =>
      if existsb (same_group c) seen then group_by t' seen
      else c :: group_by t' (c :: seen)
  end.

(** [max(valid_to)] over the rows of [g]'s group, [g] being one of them. *)
Definition max_to (t : table) (g : Certificate.t) : datetime :=
  fold_right Z.max (Certificate.valid_to g)
    (map Certificate.valid_to (List.filter (same_group g) t)).

(** The subquery: (trainset_id, dept, max_to) for every group. *)
Definition latest_subquery (t : table) : list (string * string * datetime) :=
  map (fun g => (Certificate.trainset_id g, Certificate.dept g, max_to t g))
      (group_by t []).

(** The join of the table with the subquery on all three columns. *)
Definition join_on (c : Certificate.t) (g : string * string * datetime) : bool :=
  String.eqb (Certificate.trainset_id c) (fst (fst g))
  && String.eqb (Certificate.dept c) (snd (fst g))
  && (Certificate.valid_to c =? snd g).

Definition latest_rows (t : table) : list Certificate.t :=
  flat_map (fun c => map (fun _ => c) (List.filter (join_on c) (latest_subquery t))) t.

(* ===================================================================== *)
(** ** The module, over the two pandas parsers it calls                   *)
(* ===================================================================== *)

Section Certificates.

(** What pandas makes of one cell of a column under the given keywords
    (the column is an argument because pandas settles the format once
    per column), and of one string with [dayfirst=True]: a timestamp, or
    [None] for [NaT].  Which texts pandas reads, and whether a date
    outside the nanosecond range is kept or coerced to [NaT], is left to
    the two parsers; the module is modelled over whatever they return. *)
Variable parse_cell : to_datetime_kw -> Series -> pyvalue -> option datetime.
Variable parse_scalar_dayfirst : string -> option datetime.

(** [pd.to_datetime(s, errors="coerce", **kw)] on a column *)
Definition to_datetime_series (kw : to_datetime_kw) (s : Series) : list (option datetime) :=
  map (parse_cell kw s) s.

(** [pd.to_datetime(s, errors="coerce", dayfirst=True)] on a string *)
Definition to_datetime_scalar (s : string) : option datetime :=
  parse_scalar_dayfirst s.

(** [out.notna().any()] *)
Definition notna_any (out : list (option datetime)) : bool :=
  existsb (fun d => match d with Some _ => true | None => false end) out.

Fixpoint first_notna (s : Series) (kws : list to_datetime_kw) : list (option datetime) :=
  match kws with
  | [] => to_datetime_series KwDefault s
  | kw :: kws' =>
      let out := to_datetime_series kw s in
      if notna_any out then out else first_notna s kws'
  end.

Definition series_kws : list to_datetime_kw :=
  [KwDefault; KwDayfirst; KwFormat "%d-%m-%Y"; KwFormat "%Y-%m-%d";
   KwFormat "%d/%m/%Y"; KwFormat "%m/%d/%Y"].

Definition _parse_date_series (s : Series) : list (option datetime) :=
  first_notna s series_kws.

Definition explicit_formats : list string :=
  ["%Y-%m-%d"; "%d/%m/%Y"; "%m/%d/%Y"; "%d-%m-%Y"].

(** The loop over the explicit formats: the first one for which neither
    [strptime] nor [IST.localize] raises. *)
Fixpoint try_formats (s : string) (fmts : list string) : option datetime :=
  match fmts with
  | [] => None
  | fmt :: fmts' =>
      match (do dt <- Strptime.strptime s fmt; localize dt) with
      | Ret dt => Some dt
      | Raise _ => try_formats s fmts'
      end
  end.

Definition _to_dt (value : pyvalue) : outcome (option datetime) :=
  if is_empty_marker value then Ret None
  else
    let s := Str.strip (py_str value) in
    match try_formats s explicit_formats with
    | Some dt => Ret (Some dt)
    | None =>
        if is_datetime_instance value then
          do dt <- match value with
                   | PyDatetime dt => localize dt
                   | _ => localize_NaT
                   end;
          Ret (Some dt)
        else
          match to_datetime_scalar s with
          | None => Ret None
          | Some ts => do dt <- localize ts; Ret (Some dt)
          end
    end.

(* --------------------------------------------------------------------- *)
(** *** CSV upsert                                                        *)
(* --------------------------------------------------------------------- *)

(** [raw[stat].astype(str).str.lower().map(_VALID_MAP).fillna(raw[stat])] *)
Definition map_status (v : pyvalue) : pyvalue :=
  match _VALID_MAP !! Str.lower (py_str v) with
  | Some m => PyStr m
  | None => v
  end.

Definition parse_dates_column (df : DataFrame) (label : string) : DataFrame :=
  set_column df label (map box_datetime (_parse_date_series (get_column df label))).

(** [raw.iterrows()], each row reduced to the cells the loop reads. *)
Definition iterrows (raw : DataFrame) (train dept vto : string)
  (vfrom stat : option string) : list csv_row :=
  map (fun r =>
         mk_csv_row (cell r train) (cell r dept) (option_map (cell r) stat)
                    (option_map (cell r) vfrom) (cell r vto))
      (df_rows raw).

(** [Certificate(trainset_id=..., ..., source="csv-import")] for a row *)
Definition row_record (r : csv_row) (vf : option datetime) (vt : datetime)
  : Certificate.t :=
  Certificate.mk None
    (Str.strip (py_str (r_train r)))
    (Str.strip (py_str (r_dept r)))
    (option_map (fun v => Str.strip (Str.lower (py_str v))) (r_stat r))
    vf vt (Some "csv-import").

(** The body of the loop for one row; the counters are
    [(imported, skipped)]. *)
Definition upsert_row (r : csv_row) (counts : nat * nat) : session (nat * nat) :=
  tx vt <- lift (_to_dt (r_vto r));
  match vt with
  | None => sret (fst counts, S (snd counts))
  | Some vt =>
      tx vf <- lift (match r_vfrom r with
                     | Some v => _to_dt v
                     | None => Ret None
                     end);
      let rec := row_record r vf vt in
      tx exists_ <- db_execute (existsb (same_key rec));
      if exists_ then sret (fst counts, S (snd counts))
      else tx _ <- db_add rec; sret (S (fst counts), snd counts)
  end.

Fixpoint upsert_rows (rs : list csv_row) (counts : nat * nat) : session (nat * nat) :=
  match rs with
  | [] => sret counts
  | r :: rs' => tx counts' <- upsert_row r counts; upsert_rows rs' counts'
  end.

Definition upsert_error (msg : string) : upsert_result :=
  mk_upsert 0 0 (Some msg) None.

(** The frame as the loop sees it, once the columns are resolved. *)
Definition prepare (raw : DataFrame) (train dept vto : string)
  (vfrom stat : option string) : list csv_row :=
  let raw := match vfrom with
             | Some c => parse_dates_column raw c
             | None => raw
             end in
  let raw := parse_dates_column raw vto in
  let raw := match stat with
             | Some c => set_column raw c (map map_status (get_column raw c))
             | None => raw
             end in
  let raw := set_column raw dept
               (map (fun v => PyStr (_dept_norm v)) (get_column raw dept)) in
  iterrows raw train dept vto vfrom stat.

Definition TRAIN_NAMES : list string :=
  ["trainset_id"; "train_id"; "trainset"; "rake_id"; "code"].
Definition DEPT_NAMES : list string := ["dept"; "department"; "division"].
Definition VFROM_NAMES : list string := ["valid_from"; "issue_date"; "start"].
Definition VTO_NAMES : list string :=
  ["valid_to"; "valid_till"; "expiry"; "expires_on"; "to"; "valid_upto"].
Definition STAT_NAMES : list string := ["status"; "state"; "certificate_status"].

(** Everything before the loop: an error message, or the rows to walk. *)
Definition read_rows (src : csv_source) : string + list csv_row :=
  match src with
  | NoFile path => inl ("file not found: " +:+ path)
  | CsvFile _ df =>
      let raw := _norm_cols df in
      if df_empty raw then inl "csv empty"
      else
        let cols := df_columns raw in
        match _pick cols TRAIN_NAMES, _pick cols DEPT_NAMES, _pick cols VTO_NAMES with
        | Some train, Some dept, Some vto =>
            inr (prepare raw train dept vto (_pick cols VFROM_NAMES)
                   (_pick cols STAT_NAMES))
        | _, _, _ => inl "required columns missing"
        end
  end.

Definition upsert_from_csv (src : csv_source) (db : table)
  : outcome upsert_result * table :=
  match read_rows src with
  | inl msg => (Ret (upsert_error msg), db)
  | inr rs =>
      with_session
        (tx counts <- upsert_rows rs (O, O);
         tx _ <- db_commit;
         sret (mk_upsert (fst counts) (snd counts) None (Some "ok")))
        db
  end.

(* --------------------------------------------------------------------- *)
(** *** Reporter queries                                                  *)
(* --------------------------------------------------------------------- *)

(** [if path: upsert_from_csv(path)] (or the frame written to a temporary
    file first); the result object is dropped. *)
Definition upsert_first (src : option csv_source) (db : table) : outcome unit * table :=
  match src with
  | None => (Ret tt, db)
  | Some f => let '(r, db') := upsert_from_csv f db in (do _ <- r; Ret tt, db')
  end.

(** The validity test of [expiring_within], as written. *)
Definition expiring_gate (st : option string) (v_to_dt now : datetime) : bool :=
  _valid_status_clause st
  || (match st with None => true | Some _ => false end && (now <=? v_to_dt)).

(** The body of the loop of [expiring_within] for one joined row. *)
Definition expiring_step (days : Z) (now : datetime) (c : Certificate.t)
  (results : list expiring_row) : outcome (list expiring_row) :=
  do v_to_dt <- _to_dt (PyDatetime (Certificate.valid_to c));
  match v_to_dt with
  | None => Ret results
  | Some v_to_dt =>
      if negb (expiring_gate (Certificate.status c) v_to_dt now) then Ret results
      else
        let delta_days := Cal.date v_to_dt - Cal.date now in
        if (0 <=? delta_days) && (delta_days <=? days)
        then Ret (results ++
                    [mk_expiring (Certificate.trainset_id c) (Certificate.dept c)
                       (Cal.strftime_dmY v_to_dt) delta_days])
        else Ret results
  end.

Fixpoint expiring_loop (days : Z) (now : datetime) (joined : list Certificate.t)
  (results : list expiring_row) : outcome (list expiring_row) :=
  match joined with
  | [] => Ret results
  | c :: joined' =>
      do results' <- expiring_step days now c results;
      expiring_loop days now joined' results'
  end.

(** The sort key [(days_to_expiry, train_id, department)]. *)
Definition expiring_leb (a b : expiring_row) : bool :=
  (days_to_expiry a <? days_to_expiry b)
  || ((days_to_expiry a =? days_to_expiry b)
      && (str_ltb (train_id a) (train_id b)
          || (String.eqb (train_id a) (train_id b)
              && negb (str_ltb (department b) (department a))))).

(** [now] is the reading of the clock taken by [_now()]. *)
Definition expiring_within (days : Z) (src : option csv_source) (now : datetime)
  (db : table) : outcome (list expiring_row) * table :=
  let '(r, db') := upsert_first src db in
  (do _ <- r;
   do results <- expiring_loop days now (latest_rows db') [];
   Ret (sort_by expiring_leb results),
   db').

(** The body of the loop of [total_active] for one joined row. *)
Definition total_step (now : datetime) (c : Certificate.t) (count : nat) : outcome nat :=
  do vt <- _to_dt (PyDatetime (Certificate.valid_to c));
  match vt with
  | None => Ret count
  | Some vt =>
      let st := Certificate.status c in
      if (_valid_status_clause st || match st with None => true | Some _ => false end)
         && (now <=? vt)
      then Ret (S count)
      else Ret count
  end.

Fixpoint total_loop (now : datetime) (joined : list Certificate.t) (count : nat)
  : outcome nat :=
  match joined with
  | [] => Ret count
  | c :: joined' => do count' <- total_step now c count; total_loop now joined' count'
  end.

(** [{"count": count}] *)
Definition total_active (src : option csv_source) (now : datetime) (db : table)
  : outcome nat * table :=
  let '(r, db') := upsert_first src db in
  (do _ <- r; total_loop now (latest_rows db') O, db').

(* --------------------------------------------------------------------- *)
(** *** Listing and single-record writes                                  *)
(* --------------------------------------------------------------------- *)

(** [ORDER BY trainset_id, dept, valid_to DESC] *)
Definition listing_leb (a b : Certificate.t) : bool :=
  str_ltb (Certificate.trainset_id a) (Certificate.trainset_id b)
  || (String.eqb (Certificate.trainset_id a) (Certificate.trainset_id b)
      && (str_ltb (Certificate.dept a) (Certificate.dept b)
          || (String.eqb (Certificate.dept a) (Certificate.dept b)
              && (Certificate.valid_to b <=? Certificate.valid_to a)))).

(** [OFFSET offset LIMIT limit] as SQLite reads them: a negative offset
    is no offset, a negative limit is no limit. *)
Definition offset_limit {A} (offset limit : Z) (l : list A) : list A :=
  let l := skipn (Z.to_nat offset) l in
  if limit <? 0 then l else firstn (Z.to_nat limit) l.

Definition listed (c : Certificate.t) : listed_row :=
  mk_listed (Certificate.id c) (Certificate.trainset_id c) (Certificate.dept c)
    (Certificate.status c)
    (option_map Cal.isoformat (Certificate.valid_from c))
    (Some (Cal.isoformat (Certificate.valid_to c)))
    (Certificate.source c).

Definition list_certificates (limit offset : Z) (db : table) : listing :=
  let rows := map listed (offset_limit offset limit (sort_by listing_leb db)) in
  mk_listing rows limit offset (length rows).

Definition ADD_REQUIRED : string :=
  "trainset_id, dept, valid_to are required. Use YYYY-MM-DD / DD/MM/YYYY / MM/DD/YYYY.".

Definition add_certificate (record : gmap string json) (db : table)
  : outcome add_result * table :=
  let trainset_id := Str.strip (py_str (py_or (dict_get record "trainset_id") (PyStr ""))) in
  let dept := _dept_norm (py_or (dict_get record "dept") (PyStr "")) in
  match _to_dt (dict_get record "valid_to") with
  | Raise e => (Raise e, db)
  | Ret valid_to =>
      match valid_to with
      | Some valid_to =>
          if Str.nonempty trainset_id && Str.nonempty dept then
            match _to_dt (dict_get record "valid_from") with
            | Raise e => (Raise e, db)
            | Ret valid_from =>
                let c :=
                  Certificate.mk None trainset_id dept
                    (if py_truth (dict_get record "status")
                     then Some (Str.lower (py_str (dict_get record "status")))
                     else None)
                    valid_from valid_to
                    (Some (py_str (py_or (dict_get record "source") (PyStr "api")))) in
                with_session
                  (tx _ <- db_add c;
                   tx _ <- db_commit;
                   tx c' <- db_refresh c;
                   sret (AddedId (Certificate.id c')))
                  db
            end
          else (Ret (AddError ADD_REQUIRED), db)
      | None => (Ret (AddError ADD_REQUIRED), db)
      end
  end.

(** [if key in patch: <assign>]: the object after the assignment, which
    the session now holds as modified. *)
Definition assign_if (patch : gmap string json) (key : string)
  (c : Certificate.t) (set : pyvalue -> Certificate.t) : session Certificate.t :=
  match patch !! key with
  | Some j => let c' := set (py_of_json j) in tx _ <- db_modified c'; sret c'
  | None => sret c
  end.

Definition update_certificate (cert_id : Z) (patch : gmap string json) (db : table)
  : outcome update_result * table :=
  with_session
    (tx found <- db_get cert_id;
     match found with
     | None => sret (mk_update 0 (Some "not found"))
     | Some c =>
         tx c <- assign_if patch "trainset_id" c (fun v =>
           Certificate.mk (Certificate.id c) (Str.strip (py_str v)) (Certificate.dept c)
             (Certificate.status c) (Certificate.valid_from c) (Certificate.valid_to c)
             (Certificate.source c));
         tx c <- assign_if patch "dept" c (fun v =>
           Certificate.mk (Certificate.id c) (Certificate.trainset_id c) (_dept_norm v)
             (Certificate.status c) (Certificate.valid_from c) (Certificate.valid_to c)
             (Certificate.source c));
         tx c <- assign_if patch "status" c (fun v =>
           Certificate.mk (Certificate.id c) (Certificate.trainset_id c) (Certificate.dept c)
             (let st := Str.lower (py_str v) in
              if Str.nonempty st then Some st else None)
             (Certificate.valid_from c) (Certificate.valid_to c) (Certificate.source c));
         tx c <- match patch !! "valid_from" with
                 | Some j =>
                     tx vf <- lift (_to_dt (py_of_json j));
                     let c' :=
                       Certificate.mk (Certificate.id c) (Certificate.trainset_id c)
                         (Certificate.dept c) (Certificate.status c) vf
                         (Certificate.valid_to c) (Certificate.source c) in
                     tx _ <- db_modified c'; sret c'
                 | None => sret c
                 end;
         match patch !! "valid_to" with
         | Some j =>
             tx vt <- lift (_to_dt (py_of_json j));
             match vt with
             | None => sret (mk_update 0 (Some "valid_to must be a valid date"))
             | Some vt =>
                 let c' :=
                   Certificate.mk (Certificate.id c) (Certificate.trainset_id c)
                     (Certificate.dept c) (Certificate.status c)
                     (Certificate.valid_from c) vt (Certificate.source c) in
                 tx _ <- db_modified c';
                 tx _ <- db_commit;
                 sret (mk_update 1 None)
             end
         | None =>
             tx _ <- db_commit;
             sret (mk_update 1 None)
         end
     end)
    db.

End Certificates.

(* ===================================================================== *)
(** ** Notions used to state the properties                               *)
(* ===================================================================== *)

(** The constraints under which the table is kept: the unique index, and
    expiry dates that [IST.localize] accepted when they were written. *)
Definition full_key (c : Certificate.t) : string * string * datetime :=
  (Certificate.trainset_id c, Certificate.dept c, Certificate.valid_to c).

Definition unique_key (db : table) : Prop := List.NoDup (map full_key db).

Definition dates_ok (db : table) : Prop :=
  Forall (fun c => localizable (Certificate.valid_to c) = true) db.

(** The latest record of [g]'s pair, picked out directly. *)
Definition is_latest (db : table) (c : Certificate.t) : bool :=
  Certificate.valid_to c =? max_to db c.

Definition latest_of (db : table) (g : Certificate.t) : option Certificate.t :=
  find (fun c => same_group g c && is_latest db c) db.

(** Membership of a status in the synonym set, case-insensitively. *)
Definition in_valid_set (st : string) : bool :=
  bool_decide (is_Some (_VALID_MAP !! Str.lower st)).

(** Status in the synonym set, or status absent and expiry still ahead. *)
Definition valid_or_absent_and_future (now : datetime) (c : Certificate.t) : bool :=
  match Certificate.status c with
  | Some st => in_valid_set st
  | None => now <? Certificate.valid_to c
  end.

(** Status absent or in the synonym set, and expiry not before [now]. *)
Definition active_now (now : datetime) (c : Certificate.t) : bool :=
  match Certificate.status c with
  | Some st => in_valid_set st
  | None => true
  end && (now <=? Certificate.valid_to c).

Definition pair_active (now : datetime) (db : table) (g : Certificate.t) : bool :=
  match latest_of db g with
  | Some c => active_now now c
  | None => false
  end.

Definition pair_valid_as_stated (now : datetime) (db : table) (g : Certificate.t) : bool :=
  match latest_of db g with
  | Some c => valid_or_absent_and_future now c
  | None => false
  end.

(** The row [expiring_within] reports for a record. *)
Definition report_row (now : datetime) (c : Certificate.t) : expiring_row :=
  mk_expiring (Certificate.trainset_id c) (Certificate.dept c)
    (Cal.strftime_dmY (Certificate.valid_to c))
    (Cal.date (Certificate.valid_to c) - Cal.date now).

(** The rows [expiring_within] reports for a record: the record passes
    the gate and its calendar-day distance lies in the window. *)
Definition in_window (days : Z) (now : datetime) (c : Certificate.t) : bool :=
  (0 <=? Cal.date (Certificate.valid_to c) - Cal.date now)
  && (Cal.date (Certificate.valid_to c) - Cal.date now <=? days).

Definition reported (days : Z) (now : datetime) (c : Certificate.t) : list expiring_row :=
  if expiring_gate (Certificate.status c) (Certificate.valid_to c) now
     && in_window days now c
  then [report_row now c] else [].

(** The number of characters a directive can read, and the statement
    that every alternative of a list reads at most [n] of them. *)
Definition width (d : Strptime.directive) : nat :=
  match d with
  | Strptime.DY => 4
  | Strptime.Dm | Strptime.Dd => 2
  | Strptime.DLit _ => 1
  end.

Definition consumes (n : nat) (s : string) (alts : list (Z * string)) : Prop :=
  forall v r, In (v, r) alts -> (String.length s <= n + String.length r)%nat.

(** The table a flush would leave. *)
Definition view (s : sess) : outcome table :=
  write_all sql_insert (pending s) (working s).

(** After the date parse every cell of the expiry column is a boxed
    timestamp or [NaT]. *)
Definition boxed_at (label : string) (r : gmap string pyvalue) : Prop :=
  exists x, r !! label = Some (box_datetime x).

Section UpsertModel.

Variable parse_cell : to_datetime_kw -> Series -> pyvalue -> option datetime.
Variable parse_scalar : string -> option datetime.

(** What a row contributes, apart from the table: nothing when its
    expiry does not normalize, else the record built from it. *)
Definition row_outcome (r : csv_row) : outcome (option Certificate.t) :=
  do vt <- _to_dt parse_scalar (r_vto r);
  match vt with
  | None => Ret None
  | Some vt =>
      do vf <- match r_vfrom r with
               | Some v => _to_dt parse_scalar v
               | None => Ret None
               end;
      Ret (Some (row_record r vf vt))
  end.

(** The loop as a function of the table the transaction sees. *)
Fixpoint pure_rows (rs : list csv_row) (counts : nat * nat) (T : table)
  : outcome (nat * nat * table) :=
  match rs with
  | [] => Ret (counts, T)
  | r :: rs' =>
      do o <- row_outcome r;
      match o with
      | None => pure_rows rs' (fst counts, S (snd counts)) T
      | Some rec =>
          if existsb (same_key rec) T
          then pure_rows rs' (fst counts, S (snd counts)) T
          else pure_rows rs' (S (fst counts), snd counts)
                 (T ++ [Certificate.with_id (next_id T) rec])
      end
  end.

(** A row is settled in [T]: it is read without an exception, and the
    record it gives, if any, has its key in [T]. *)
Definition settled (T : table) (r : csv_row) : Prop :=
  exists o, row_outcome r = Ret o
            /\ forall rec, o = Some rec -> existsb (same_key rec) T = true.

(** The expiry of the row normalizes to an instant. *)
Definition normalises (r : csv_row) : bool :=
  match _to_dt parse_scalar (r_vto r) with
  | Ret (Some _) => true
  | _ => false
  end.

(** The number of rows of a source whose expiry normalizes. *)
Definition parsed_count (src : csv_source) : nat :=
  match read_rows parse_cell src with
  | inl _ => O
  | inr rs => length (List.filter normalises rs)
  end.

End UpsertModel.

(** A frame from its labels and the cells of its rows. *)
Definition frame (labels : list string) (cells : list (list pyvalue)) : DataFrame :=
  mk_df labels (map (fun cs => list_to_map (combine labels cs)) cells).

(* --------------------------------------------------------------------- *)
(** *** Sample data                                                       *)
(* --------------------------------------------------------------------- *)

Definition cert (i : Z) (train dept : string) (st : option string) (vt : datetime)
  : Certificate.t :=
  Certificate.mk (Some i) train dept st None vt (Some "api").

(** 4 November 2026, 10:00 IST. *)
Definition sample_now : datetime := Cal.at_midnight 2026 11 4 + 36000000000.

(** Status "valid", expired on 1 January 2020. *)
Definition expired_valid_db : table :=
  [cert 1 "T1" "RS" (Some "valid") (Cal.at_midnight 2020 1 1)].

(** No status, expired at 00:00 of the day of [sample_now]. *)
Definition lapsed_today_db : table :=
  [cert 1 "T1" "RS" None (Cal.at_midnight 2026 11 4)].

(** Two versions of T1/RS inserted newest first, and one of T2/SIG. *)
Definition history_db : table :=
  [cert 1 "T1" "RS" None (Cal.at_midnight 2099 12 31);
   cert 2 "T1" "RS" None (Cal.at_midnight 2020 1 1);
   cert 3 "T2" "SIG" (Some "revoked") (Cal.at_midnight 2027 1 1)].

(** Three pairs expiring 16, 46 and 6 days after [sample_now]. *)
Definition expiring_db : table :=
  [cert 1 "T1" "RS" None (Cal.at_midnight 2026 11 20);
   cert 2 "T2" "SIG" (Some "valid") (Cal.at_midnight 2026 12 20);
   cert 3 "T3" "TEL" None (Cal.at_midnight 2026 11 10)].

(** Expires tomorrow at 18:30. *)
Definition tomorrow_db : table :=
  [cert 1 "T1" "RS" None (Cal.at_midnight 2026 11 5 + 66600000000)].

Definition csv_labels : list string := ["trainset_id"; "dept"; "valid_to"].

(** One row, expiry written as 01/02/2024. *)
Definition ambiguous_csv : csv_source :=
  CsvFile "certs.csv"
    (frame csv_labels [[PyStr "T1"; PyStr "RS"; PyStr "01/02/2024"]]).

(** A good row followed by one whose expiry is not a date. *)
Definition bad_expiry_csv : csv_source :=
  CsvFile "certs.csv"
    (frame csv_labels
       [[PyStr "T1"; PyStr "RS"; PyStr "2030-01-01"];
        [PyStr "T2"; PyStr "SIG"; PyStr "not-a-date"]]).

(** The scenario of the specification: two versions of T1 / Rolling Stock. *)
Definition history_csv : csv_source :=
  CsvFile "certs.csv"
    (frame ["Trainset ID"; "Dept"; "Valid-To"]
       [[PyStr "T1"; PyStr "Rolling Stock"; PyStr "31/12/2099"];
        [PyStr "T1"; PyStr "Rolling Stock"; PyStr "01/01/2020"]]).

Definition duplicate_record : gmap string json :=
  {[ "trainset_id" := JString "T1"; "dept" := JString "Rolling Stock";
     "valid_to" := JString "31/12/2099" ]}.

Definition bad_patch : gmap string json :=
  {[ "dept" := JString "SIG"; "status" := JString "revoked";
     "valid_to" := JString "not-a-date" ]}.



(* ===================================================================== *)
(** ** Deleting a record, and the constraints of the table                *)
(* ===================================================================== *)

(** [db.delete(obj)]: the row of the object leaves the transaction's
    view (the DELETE itself is emitted by the flush of the commit that
    follows at once). *)
Definition db_delete (c : Certificate.t) : session unit :=
  fun s =>
    (Ret tt,
     mk_sess (committed s)
       (List.filter (fun r => negb (same_id r c)) (working s))
       (pending s) (dirty s)).

(** [{"deleted": n}] or [{"deleted": n, "error": msg}] *)
Record delete_result : Type := mk_delete {
  deleted : Z;
  delete_error : option string
}.

Definition delete_certificate (cert_id : Z) (db : table)
  : outcome delete_result * table :=
  with_session
    (tx found <- db_get cert_id;
     match found with
     | None => sret (mk_delete 0 (Some "not found"))
     | Some c =>
         tx _ <- db_delete c;
         tx _ <- db_commit;
         sret (mk_delete 1 None)
     end)
    db.

(** The integers SQLite stores and binds: signed 64-bit. *)
Definition sqlite_int (n : Z) : Prop := - 2 ^ 63 <= n < 2 ^ 63.

(** Text within ASCII, on which the byte-wise case mapping and slicing of
    this file are those of Python's [str]. *)
Definition is_ascii (s : string) : bool :=
  forallb (fun a => (nat_of_ascii a <? 128)%nat) (list_ascii_of_string s).

(** The primary key: every row has an id, and no two rows share one. *)
Definition has_id (cert_id : Z) (c : Certificate.t) : bool :=
  match Certificate.id c with
  | Some i => i =? cert_id
  | None => false
  end.

Definition pk_ok (db : table) : Prop :=
  List.NoDup (map Certificate.id db)
  /\ Forall (fun c => exists i, Certificate.id c = Some i) db.

(** The constraints the table is kept under. *)
Definition store_ok (db : table) : Prop :=
  pk_ok db /\ unique_key db /\ dates_ok db.

(** A session computation that leaves the committed table alone, and one
    that commits at most on its way to a result satisfying [P]. *)
Definition quiet {A} (m : session A) : Prop :=
  forall s, committed (snd (m s)) = committed s.

Definition commits_only_for {A} (P : A -> Prop) (m : session A) : Prop :=
  forall s,
    committed (snd (m s)) = committed s
    \/ exists a, fst (m s) = Ret a /\ P a.

(** A Hoare triple for session computations over the committed table
    [db]: from a state satisfying [P], a returned value and its state
    satisfy [Q], and an exception leaves [db] committed. *)
Definition triple (db : table) {A} (P : sess -> Prop) (m : session A)
  (Q : A -> sess -> Prop) : Prop :=
  forall s, P s ->
    match m s with
    | (Ret a, s') => Q a s'
    | (Raise _, s') => committed s' = db
    end.

(** The session of [update_certificate] while the object [c], loaded as
    the row [c0], is being assigned to. *)
Definition editing (db : table) (c0 c : Certificate.t) (s : sess) : Prop :=
  committed s = db /\ working s = db /\ pending s = []
  /\ (dirty s = [] /\ c = c0 \/ dirty s = [c])
  /\ Certificate.id c = Certificate.id c0
  /\ (localizable (Certificate.valid_to c0) = true ->
      localizable (Certificate.valid_to c) = true).

(** The UPDATE of one row: the row of [c]'s id becomes [c]. *)
Definition replace_row (c : Certificate.t) (db : table) : table :=
  map (fun r => if same_id r c then c else r) db.

(** What [update_certificate] may have committed: nothing, or the row
    [c0] of the given id rewritten as [c] without a key collision. *)
Definition updated_to (db : table) (cert_id : Z) (db' : table) : Prop :=
  db' = db
  \/ exists c0 c,
       In c0 db /\ Certificate.id c0 = Some cert_id
       /\ Certificate.id c = Some cert_id
       /\ db' = replace_row c db
       /\ existsb (fun r => same_key c r && negb (same_id r c)) db = false
       /\ (localizable (Certificate.valid_to c0) = true ->
           localizable (Certificate.valid_to c) = true).

(** The value an attribute has after the assignments of a patch: the
    patch's value through the conversion applied to it, or the old
    one when the key is absent. *)
Definition patch_field {A} (patch : gmap string json) (key : string)
  (f : pyvalue -> A) (old : A) : A :=
  match patch !! key with
  | Some j => f (py_of_json j)
  | None => old
  end.

(** The object [c] after the assignments of [update_certificate], the
    two dates being given as they will have been normalized. *)
Definition patched (patch : gmap string json) (c : Certificate.t)
  (vf : option datetime) (vt : datetime) : Certificate.t :=
  Certificate.mk (Certificate.id c)
    (patch_field patch "trainset_id" (fun v => Str.strip (py_str v))
       (Certificate.trainset_id c))
    (patch_field patch "dept" _dept_norm (Certificate.dept c))
    (patch_field patch "status"
       (fun v => let st := Str.lower (py_str v) in
                 if Str.nonempty st then Some st else None)
       (Certificate.status c))
    vf vt (Certificate.source c).

(** The patch names at least one of the five attributes. *)
Definition touches (patch : gmap string json) : bool :=
  existsb (fun key => match patch !! key with Some _ => true | None => false end)
    ["trainset_id"; "dept"; "status"; "valid_from"; "valid_to"].

(** Another row already has the key of [c]. *)
Definition collides (c : Certificate.t) (db : table) : bool :=
  existsb (fun r => same_key c r && negb (same_id r c)) db.

Definition other_patch : gmap string json :=
  {[ "status" := JString "Valid"; "valid_to" := JString "01/01/2021" ]}.

Definition colliding_patch : gmap string json :=
  {[ "valid_to" := JString "31/12/2099" ]}.

Definition new_record : gmap string json :=
  {[ "trainset_id" := JString " T9 "; "dept" := JString "telecom";
     "status" := JString "Valid"; "valid_to" := JString "2030-01-01" ]}.

Definition no_dept_record : gmap string json :=
  {[ "trainset_id" := JString "T9"; "valid_to" := JString "2030-01-01" ]}.

(** A file without a department column. *)
Definition no_dept_csv : csv_source :=
  CsvFile "certs.csv"
    (frame ["Trainset ID"; "Valid-To"] [[PyStr "T1"; PyStr "31/12/2099"]]).

(** A later certificate for the pair of row 3 of the sample table. *)
Definition newer_record : gmap string json :=
  {[ "trainset_id" := JString "T2"; "dept" := JString "signal";
     "valid_to" := JString "01/05/2031" ]}.

(* ===================================================================== *)
(** ** Properties                                                         *)
(* ===================================================================== *)

(** *** Lists *)

Lemma insert_by_perm {A} (leb : A -> A -> bool) x l :
  Permutation (insert_by leb x l) (x :: l).
Proof.
  induction l as [|y l IH]; simpl.
  - reflexivity.
  - destruct (leb x y).
    + reflexivity.
    + rewrite IH. apply perm_swap.
Qed.

Lemma sort_by_perm {A} (leb : A -> A -> bool) l :
  Permutation (sort_by leb l) l.
Proof.
  induction l as [|x l IH]; simpl.
  - reflexivity.
  - rewrite insert_by_perm. now constructor.
Qed.

Lemma sort_by_In {A} (leb : A -> A -> bool) l x :
  In x (sort_by leb l) <-> In x l.
Proof.
  split; apply Permutation_in; [|symmetry]; apply sort_by_perm.
Qed.

Lemma sort_by_length {A} (leb : A -> A -> bool) (l : list A) :
  length (sort_by leb l) = length l.
Proof. apply Permutation_length, sort_by_perm. Qed.

(** *** [list_certificates] *)

Lemma offset_limit_length {A} offset limit (l : list A) :
  (length (offset_limit offset limit l) <= length l)%nat
  /\ (limit < 0 \/ Z.of_nat (length (offset_limit offset limit l)) <= limit).
Proof.
  unfold offset_limit.
  destruct (Z.ltb_spec limit 0) as [Hneg|Hpos].
  - split; [|now left]. rewrite length_skipn. lia.
  - rewrite length_firstn, length_skipn. split; [lia|right; lia].
Qed.

(** C10. The [count] of a listing is the number of rows of the page it
    returns; the page has at most [limit] rows (SQLite reads a negative
    limit as no limit) and never more rows than the table. *)
Theorem list_count_is_page_length (limit offset : Z) (db : table) :
  count (list_certificates limit offset db)
  = length (rows (list_certificates limit offset db))
  /\ (limit < 0 \/ Z.of_nat (count (list_certificates limit offset db)) <= limit)
  /\ (count (list_certificates limit offset db) <= length db)%nat.
Proof.
  unfold list_certificates; cbn [count rows].
  rewrite length_map.
  destruct (offset_limit_length offset limit (sort_by listing_leb db)) as [Hle Hlim].
  rewrite sort_by_length in Hle. auto.
Qed.

(** A page can be strictly smaller than the table. *)
Example list_count_below_total :
  count (list_certificates 1 0 history_db) = 1%nat /\ length history_db = 3%nat.
Proof. split; reflexivity. Qed.

(** *** [strptime] reads at most ten characters *)

Lemma consumes_app n s a b : consumes n s a -> consumes n s b -> consumes n s (a ++ b).
Proof. intros Ha Hb v r Hin. apply in_app_or in Hin as [?|?]; eauto. Qed.

Lemma consumes_two p s : consumes 2 s (Strptime.two p s).
Proof.
  intros v r. unfold Strptime.two.
  destruct s as [|a [|b s]]; simpl; try tauto.
  destruct (p a b); simpl; [|tauto].
  intros [[= _ <-]|[]]. lia.
Qed.

Lemma consumes_one p s : consumes 2 s (Strptime.one p s).
Proof.
  intros v r. unfold Strptime.one.
  destruct s as [|a s]; simpl; try tauto.
  destruct (p a); simpl; [|tauto].
  intros [[= _ <-]|[]]. lia.
Qed.

Lemma consumes_space_digit s : consumes 2 s (Strptime.space_digit s).
Proof.
  intros v r. unfold Strptime.space_digit.
  destruct s as [|a [|b s]]; simpl; try tauto.
  destruct (_ && _); simpl; [|tauto].
  intros [[= _ <-]|[]]. lia.
Qed.

Lemma consumes_Y s : consumes 4 s (Strptime.alts_Y s).
Proof.
  intros v r. unfold Strptime.alts_Y.
  destruct s as [|a [|b [|c [|d s]]]]; simpl; try tauto.
  destruct (_ && _); simpl; [|tauto].
  intros [[= _ <-]|[]]. lia.
Qed.

Lemma first_match_some {A B} (k : A -> option B) l b :
  Strptime.first_match k l = Some b -> exists a, In a l /\ k a = Some b.
Proof.
  induction l as [|a l IH]; simpl; [discriminate|].
  destruct (k a) eqn:Hk.
  - intros [= <-]. eauto.
  - intros H. destruct (IH H) as (a' & ? & ?). eauto.
Qed.

Lemma match_items_consumes items :
  forall s acc f rest,
    Strptime.match_items items s acc = Some (f, rest) ->
    (String.length s <= list_sum (map width items) + String.length rest)%nat.
Proof.
  induction items as [|d items IH]; intros s acc f rest; simpl.
  - intros [= _ <-]. lia.
  - destruct d.
    + intros H. apply first_match_some in H as ([v r] & Hin & Hm).
      apply IH in Hm. apply consumes_Y in Hin. simpl in *. lia.
    + intros H. apply first_match_some in H as ([v r] & Hin & Hm).
      apply IH in Hm.
      assert (consumes 2 s (Strptime.alts_m s)) as Hc
        by (repeat apply consumes_app; auto using consumes_two, consumes_one).
      apply Hc in Hin. simpl in *. lia.
    + intros H. apply first_match_some in H as ([v r] & Hin & Hm).
      apply IH in Hm.
      assert (consumes 2 s (Strptime.alts_d s)) as Hc
        by (repeat apply consumes_app;
            auto using consumes_two, consumes_one, consumes_space_digit).
      apply Hc in Hin. simpl in *. lia.
    + destruct s as [|b s]; [discriminate|].
      destruct (Ascii.eqb a b); [|discriminate].
      intros H. apply IH in H. simpl. lia.
Qed.

Lemma strptime_long s fmt :
  (list_sum (map width (Strptime.parse_format fmt)) < String.length s)%nat ->
  exists e, Strptime.strptime s fmt = Raise e.
Proof.
  intros Hlen. unfold Strptime.strptime.
  destruct (Strptime.match_items _ s _) as [[f rest]|] eqn:Hm; [|eauto].
  apply match_items_consumes in Hm.
  destruct rest as [|a rest]; simpl in *; [lia|eauto].
Qed.

Lemma try_formats_long s :
  (10 < String.length s)%nat -> try_formats s explicit_formats = None.
Proof.
  intros Hlen. unfold explicit_formats. simpl.
  repeat match goal with
  | |- context [Strptime.strptime s ?fmt] =>
      let e := fresh "e" in let He := fresh "He" in
      destruct (strptime_long s fmt) as [e He]; [simpl; lia|]; rewrite He; simpl
  end.
  reflexivity.
Qed.

(** *** The text of a datetime matches none of the explicit formats *)

Lemma digit_char_not_space x : Str.is_space (Str.digit_char (x mod 10)) = false.
Proof.
  assert (0 <= x mod 10 < 10) as H by (apply Z.mod_pos_bound; lia).
  set (k := x mod 10) in *. clearbody k.
  assert (k = 0 \/ k = 1 \/ k = 2 \/ k = 3 \/ k = 4 \/ k = 5 \/ k = 6 \/ k = 7
          \/ k = 8 \/ k = 9) as Hk by lia.
  repeat (destruct Hk as [->|Hk]; [reflexivity|]). subst. reflexivity.
Qed.

Lemma str_datetime d :
  Str.strip (py_str (PyDatetime d)) = py_str (PyDatetime d)
  /\ (10 < String.length (py_str (PyDatetime d)))%nat.
Proof.
  unfold py_str, Cal.isoformat_sep.
  destruct (Cal.ord2ymd (Cal.date d)) as [[y m] dd].
  unfold Str.zfill. cbn [Str.pad_digits].
  destruct (_ =? 0); lazy beta iota delta [String.append];
    (split; [|cbn [String.length]; lia]);
    unfold Str.strip, Str.rev;
    cbn [Str.lstrip]; rewrite digit_char_not_space;
    cbn [Str.rev_onto Str.lstrip]; rewrite digit_char_not_space;
    reflexivity.
Qed.

Section ToDt.

Variable parse_scalar_dayfirst : string -> option datetime.

(** A naive datetime, as the table hands it back, is localized. *)
Lemma _to_dt_datetime d :
  _to_dt parse_scalar_dayfirst (PyDatetime d)
  = do dt <- localize d; Ret (Some dt).
Proof.
  unfold _to_dt. cbn [is_empty_marker is_datetime_instance].
  destruct (str_datetime d) as [-> Hlen].
  rewrite try_formats_long by exact Hlen. reflexivity.
Qed.

Lemma _to_dt_stored d :
  localizable d = true ->
  _to_dt parse_scalar_dayfirst (PyDatetime d) = Ret (Some d).
Proof. intros H. rewrite _to_dt_datetime. unfold localize. now rewrite H. Qed.

(** The missing-datetime object is not an empty marker and is a datetime
    instance: normalizing it raises. *)
Lemma _to_dt_NaT :
  _to_dt parse_scalar_dayfirst PyNaT = Raise (ValueError "Naive time - no tzinfo set").
Proof. reflexivity. Qed.

Lemma try_formats_localizable s fmts dt :
  try_formats s fmts = Some dt -> localizable dt = true.
Proof.
  induction fmts as [|fmt fmts IH]; simpl; [discriminate|].
  destruct (Strptime.strptime s fmt) as [d|e]; simpl; [|exact IH].
  unfold localize. destruct (localizable d) eqn:Hd; [|exact IH].
  now intros [= <-].
Qed.

End ToDt.

(** *** [update_certificate] *)

Lemma find_id_exists (db : table) cert_id :
  (exists c, In c db /\ Certificate.id c = Some cert_id) ->
  exists c0, find (fun r => match Certificate.id r with
                            | Some i => i =? cert_id
                            | None => false
                            end) db = Some c0.
Proof.
  intros (c & Hin & Hid).
  destruct (find _ db) as [c0|] eqn:Hf; [eauto|].
  eapply find_none in Hf; [|exact Hin]. simpl in Hf.
  rewrite Hid, Z.eqb_refl in Hf. discriminate.
Qed.




(** *** Evaluations *)

(** The scenarios of the specification, run on the model. *)
Example to_dt_reads_day_first (parse_scalar : string -> option datetime) :
  _to_dt parse_scalar (PyStr "01/02/2024") = Ret (Some (Cal.at_midnight 2024 2 1)).
Proof. vm_compute. reflexivity. Qed.

(** The last representable day is localized; the first is not, and a
    text pandas reads as a date of that day makes [_to_dt] raise. *)
Example to_dt_last_and_first_day :
  _to_dt sample_parse_scalar (PyStr "9999-12-31")
  = Ret (Some (Cal.at_midnight 9999 12 31))
  /\ _to_dt sample_parse_scalar (PyStr "0001-01-01")
     = Raise (OverflowError "date value out of range").
Proof. split; vm_compute; reflexivity. Qed.

Example day_month_year_round_trip (parse_scalar : string -> option datetime) :
  _to_dt parse_scalar (PyStr "15/03/2025") = Ret (Some (Cal.at_midnight 2025 3 15))
  /\ Cal.strftime_dmY (Cal.at_midnight 2025 3 15) = "15/03/2025".
Proof. split; vm_compute; reflexivity. Qed.

Example two_versions_counted_once :
  fst (total_active sample_parse_cell sample_parse_scalar (Some history_csv) sample_now [])
  = Ret 1%nat.
Proof. vm_compute. reflexivity. Qed.

Example add_without_valid_to (parse_scalar : string -> option datetime) :
  add_certificate parse_scalar
    {[ "trainset_id" := JString "T2"; "dept" := JString "SIG" ]} history_db
  = (Ret (AddError ADD_REQUIRED), history_db).
Proof. vm_compute. reflexivity. Qed.

(** C2. A latest record with no status whose expiry instant has passed
    (00:00 of the current day, read at 10:00) passes the gate of
    [expiring_within] and is reported, although it is neither of valid
    status nor future-dated: [_valid_status_clause] answers [True] for an
    absent status, so the future-date test is never consulted. *)
Theorem expiring_within_reports_lapsed_absent_status
  (parse_cell : to_datetime_kw -> Series -> pyvalue -> option datetime)
  (parse_scalar : string -> option datetime) :
  Certificate.valid_to (cert 1 "T1" "RS" None (Cal.at_midnight 2026 11 4)) < sample_now
  /\ valid_or_absent_and_future sample_now
       (cert 1 "T1" "RS" None (Cal.at_midnight 2026 11 4)) = false
  /\ expiring_gate None (Cal.at_midnight 2026 11 4) sample_now = true
  /\ expiring_within parse_cell parse_scalar 0 None sample_now lapsed_today_db
     = (Ret [mk_expiring "T1" "RS" "04/11/2026" 0], lapsed_today_db).
Proof. repeat split; vm_compute; reflexivity. Qed.

(** The gate lets every record without a status through. *)
Lemma expiring_gate_absent_status v now : expiring_gate None v now = true.
Proof. reflexivity. Qed.

(** [_parse_date_series] keeps the permissive default parse whenever it
    reads at least one cell; the explicit formats are not tried. *)
Lemma parse_date_series_default_first
  (parse_cell : to_datetime_kw -> Series -> pyvalue -> option datetime) (s : Series) :
  notna_any (to_datetime_series parse_cell KwDefault s) = true ->
  _parse_date_series parse_cell s = to_datetime_series parse_cell KwDefault s.
Proof. intros H. unfold _parse_date_series, series_kws. simpl. now rewrite H. Qed.

(** C4. A column holding "01/02/2024" is read by the permissive default
    parse, which comes first in [_parse_date_series], as 2 January: the
    CSV upsert stores 2 January 2024, whereas [_to_dt] on the same text
    (explicit formats first) gives 1 February 2024. *)
Theorem parse_date_series_reads_month_first :
  _parse_date_series sample_parse_cell [PyStr "01/02/2024"]
  = to_datetime_series sample_parse_cell KwDefault [PyStr "01/02/2024"]
  /\ _parse_date_series sample_parse_cell [PyStr "01/02/2024"]
     = [Some (Cal.at_midnight 2024 1 2)]
  /\ to_datetime_series sample_parse_cell (KwFormat "%d/%m/%Y") [PyStr "01/02/2024"]
     = [Some (Cal.at_midnight 2024 2 1)]
  /\ _to_dt sample_parse_scalar (PyStr "01/02/2024") = Ret (Some (Cal.at_midnight 2024 2 1))
  /\ map Certificate.valid_to
       (snd (upsert_from_csv sample_parse_cell sample_parse_scalar ambiguous_csv []))
     = [Cal.at_midnight 2024 1 2].
Proof. repeat split; vm_compute; reflexivity. Qed.

(** C7. A file whose second row has an expiry that is not a date: the
    column parse turns the cell into [NaT], [_to_dt] raises on it, and
    the call raises instead of returning counts; nothing is stored. *)
Theorem upsert_unparseable_expiry_raises :
  map r_vto
    (match read_rows sample_parse_cell bad_expiry_csv with
     | inr rs => rs
     | inl _ => []
     end)
  = [PyDatetime (Cal.at_midnight 2030 1 1); PyNaT]
  /\ upsert_from_csv sample_parse_cell sample_parse_scalar bad_expiry_csv []
     = (Raise (ValueError "Naive time - no tzinfo set"), []).
Proof. split; vm_compute; reflexivity. Qed.

(** C9. Adding a record whose (trainset_id, dept, valid_to) is already in
    the table: the insert violates the unique index, and the exception
    leaves [add_certificate]; no [{"error": ...}] object is returned. *)
Theorem add_duplicate_raises (parse_scalar : string -> option datetime) :
  existsb (same_key (cert 0 "T1" "RS" None (Cal.at_midnight 2099 12 31))) history_db = true
  /\ add_certificate parse_scalar duplicate_record history_db
     = (Raise (IntegrityError "uq_cert_train_dept_to"), history_db).
Proof. split; vm_compute; reflexivity. Qed.

(** C1, as stated, fails: the latest record of T1/RS has status "valid"
    (in the synonym set) but expired in 2020, and [total_active] counts
    nothing. *)
Lemma total_active_skips_expired_valid_status :
  latest_rows expired_valid_db = expired_valid_db
  /\ List.filter (pair_valid_as_stated sample_now expired_valid_db)
       (group_by expired_valid_db [])
     = expired_valid_db
  /\ total_active sample_parse_cell sample_parse_scalar None sample_now expired_valid_db
     = (Ret 0%nat, expired_valid_db)
  /\ total_active sample_parse_cell sample_parse_scalar None sample_now expired_valid_db
     <> (Ret (length (List.filter (pair_valid_as_stated sample_now expired_valid_db)
                        (group_by expired_valid_db []))),
         expired_valid_db).
Proof. repeat split; try (vm_compute; reflexivity). vm_compute. discriminate. Qed.

(** *** The latest record of a pair *)

Lemma same_group_spec a b :
  same_group a b = true
  <-> Certificate.trainset_id a = Certificate.trainset_id b
      /\ Certificate.dept a = Certificate.dept b.
Proof.
  unfold same_group. now rewrite andb_true_iff, !String.eqb_eq.
Qed.

Lemma same_group_refl a : same_group a a = true.
Proof. now apply same_group_spec. Qed.

Lemma same_group_sym a b : same_group a b = same_group b a.
Proof.
  destruct (same_group a b) eqn:H1, (same_group b a) eqn:H2; try reflexivity.
  - apply same_group_spec in H1 as [? ?].
    assert (same_group b a = true) by now apply same_group_spec. congruence.
  - apply same_group_spec in H2 as [? ?].
    assert (same_group a b = true) by now apply same_group_spec. congruence.
Qed.

Lemma same_group_trans a b c :
  same_group a b = true -> same_group b c = true -> same_group a c = true.
Proof.
  rewrite !same_group_spec. intros [-> ->] [-> ->]. now split.
Qed.

Lemma same_group_ext a b :
  same_group a b = true -> forall c, same_group a c = same_group b c.
Proof.
  intros Hab c.
  destruct (same_group b c) eqn:Hbc.
  - eapply same_group_trans; eauto.
  - destruct (same_group a c) eqn:Hac; [|reflexivity].
    rewrite same_group_sym in Hab.
    rewrite <- Hbc. symmetry. eapply same_group_trans; eauto.
Qed.

Lemma filter_nil_iff {A} (p : A -> bool) l :
  (forall x, In x l -> p x = false) -> List.filter p l = [].
Proof.
  induction l as [|x l IH]; intros H; simpl; [reflexivity|].
  rewrite (H x) by now left. apply IH. intros y Hy. apply H. now right.
Qed.

Lemma filter_and {A} (p q : A -> bool) l :
  List.filter (fun x => p x && q x) l = List.filter q (List.filter p l).
Proof.
  induction l as [|x l IH]; simpl; [reflexivity|].
  destruct (p x); simpl; [destruct (q x)|]; now rewrite IH.
Qed.

Lemma filter_map_comm {A B} (f : A -> B) (p : B -> bool) l :
  List.filter p (map f l) = map f (List.filter (fun x => p (f x)) l).
Proof.
  induction l as [|x l IH]; simpl; [reflexivity|].
  destruct (p (f x)); simpl; now rewrite IH.
Qed.

Lemma flat_map_filter {A} (f : A -> list A) (p : A -> bool) l :
  (forall c, In c l -> f c = if p c then [c] else []) ->
  flat_map f l = List.filter p l.
Proof.
  induction l as [|x l IH]; intros H; simpl; [reflexivity|].
  rewrite (H x) by now left.
  rewrite IH by (intros; apply H; now right).
  now destruct (p x).
Qed.

(** [GROUP BY] yields exactly one representative of every pair. *)
Lemma group_by_seen t : forall seen c,
  (exists s, In s seen /\ same_group c s = true) ->
  List.filter (same_group c) (group_by t seen) = [].
Proof.
  induction t as [|x t IH]; intros seen c (s & Hs & Hcs); simpl; [reflexivity|].
  destruct (existsb (same_group x) seen) eqn:Hx.
  - apply IH. eauto.
  - simpl. destruct (same_group c x) eqn:Hcx.
    + exfalso. assert (existsb (same_group x) seen = true); [|congruence].
      apply existsb_exists. exists s. split; [exact Hs|].
      rewrite same_group_sym in Hcx. eapply same_group_trans; eauto.
    + apply IH. exists s. split; [now right|exact Hcs].
Qed.

Lemma group_by_one t : forall seen c,
  In c t ->
  (forall s, In s seen -> same_group c s = false) ->
  exists g, List.filter (same_group c) (group_by t seen) = [g]
            /\ In g t /\ same_group c g = true.
Proof.
  induction t as [|x t IH]; intros seen c Hin Hseen; [destruct Hin|]. simpl.
  destruct (existsb (same_group x) seen) eqn:Hx.
  - destruct Hin as [->|Hin].
    + apply existsb_exists in Hx as (s & Hs & Hxs). rewrite Hseen in Hxs; [discriminate|exact Hs].
    + destruct (IH seen c Hin Hseen) as (g & ? & ? & ?). exists g. auto.
  - simpl. destruct (same_group c x) eqn:Hcx.
    + exists x. split; [|split; [now left|exact Hcx]].
      f_equal. apply group_by_seen. exists x. split; [now left|exact Hcx].
    + destruct Hin as [->|Hin]; [now rewrite same_group_refl in Hcx|].
      destruct (IH (x :: seen) c Hin) as (g & ? & ? & ?).
      * intros s [<-|Hs]; [exact Hcx|now apply Hseen].
      * exists g. auto.
Qed.

(** [max(valid_to)] of a group is attained in it and bounds it. *)
Lemma fold_max_bounds d l :
  d <= fold_right Z.max d l
  /\ (forall x, In x l -> x <= fold_right Z.max d l)
  /\ (fold_right Z.max d l = d \/ In (fold_right Z.max d l) l).
Proof.
  induction l as [|y l (IH1 & IH2 & IH3)]; simpl.
  - split; [lia|]. split; [tauto|now left].
  - split; [lia|]. split.
    + intros x [->|Hx]; [lia|]. specialize (IH2 x Hx). lia.
    + destruct (Z.max_spec y (fold_right Z.max d l)) as [[_ ->]|[_ ->]].
      * destruct IH3 as [->|?]; [now left|right; now right].
      * right. now left.
Qed.

Lemma max_to_ge t g c :
  In c t -> same_group g c = true -> Certificate.valid_to c <= max_to t g.
Proof.
  intros Hin Hg. unfold max_to.
  apply (fold_max_bounds (Certificate.valid_to g)).
  apply in_map, filter_In. auto.
Qed.

Lemma max_to_attained t g :
  In g t ->
  exists c, In c t /\ same_group g c = true /\ Certificate.valid_to c = max_to t g.
Proof.
  intros Hin. unfold max_to.
  destruct (fold_max_bounds (Certificate.valid_to g)
              (map Certificate.valid_to (List.filter (same_group g) t)))
    as (_ & _ & [Heq|Hmem]).
  - exists g. rewrite Heq. auto using same_group_refl.
  - apply in_map_iff in Hmem as (c & Hc & Hf). apply filter_In in Hf as [? ?].
    exists c. auto.
Qed.

Lemma max_to_same_group t g c :
  In g t -> In c t -> same_group g c = true -> max_to t g = max_to t c.
Proof.
  intros Hg Hc Hgc.
  destruct (max_to_attained t g Hg) as (a & Ha & Hga & Hav).
  destruct (max_to_attained t c Hc) as (b & Hb & Hcb & Hbv).
  assert (same_group c g = true) as Hcg by now rewrite same_group_sym.
  pose proof (max_to_ge t c a Ha (same_group_trans _ _ _ Hcg Hga)).
  pose proof (max_to_ge t g b Hb (same_group_trans _ _ _ Hgc Hcb)).
  lia.
Qed.

(** The join keeps exactly the rows whose expiry is their pair's maximum. *)
Lemma latest_rows_filter t : latest_rows t = List.filter (is_latest t) t.
Proof.
  unfold latest_rows. apply flat_map_filter. intros c Hc.
  unfold latest_subquery. rewrite filter_map_comm.
  assert (forall g, join_on c (Certificate.trainset_id g, Certificate.dept g, max_to t g)
                    = same_group c g && (Certificate.valid_to c =? max_to t g)) as Hj
    by reflexivity.
  rewrite (filter_ext _ _ Hj), filter_and.
  destruct (group_by_one t [] c Hc) as (g & -> & Hg & Hcg); [intros s []|].
  simpl. unfold is_latest.
  rewrite (max_to_same_group t c g Hc Hg Hcg).
  now destruct (_ =? _).
Qed.

Lemma NoDup_map_inj {A B} (f : A -> B) l x y :
  List.NoDup (map f l) -> In x l -> In y l -> f x = f y -> x = y.
Proof.
  induction l as [|a l IH]; intros Hnd Hx Hy Hf; [destruct Hx|].
  simpl in Hnd. apply NoDup_cons_iff in Hnd as [Hnot Hnd].
  destruct Hx as [->|Hx], Hy as [->|Hy]; auto.
  - exfalso. apply Hnot. rewrite Hf. now apply in_map.
  - exfalso. apply Hnot. rewrite <- Hf. now apply in_map.
Qed.

Lemma filter_unique {A B} (f : A -> B) (p : A -> bool) (k : B) l x0 :
  List.NoDup (map f l) ->
  (forall x, In x l -> p x = true -> f x = k) ->
  In x0 l -> p x0 = true ->
  List.filter p l = [x0].
Proof.
  induction l as [|a l IH]; intros Hnd Hk Hin Hp; [destruct Hin|].
  simpl in Hnd. apply NoDup_cons_iff in Hnd as [Hnot Hnd]. simpl.
  destruct Hin as [->|Hin].
  - rewrite Hp. f_equal. apply filter_nil_iff. intros y Hy.
    destruct (p y) eqn:Hpy; [|reflexivity].
    exfalso. apply Hnot.
    rewrite (Hk x0) by (auto; now left).
    rewrite <- (Hk y) by (auto; now right). now apply in_map.
  - destruct (p a) eqn:Hpa.
    + exfalso. apply Hnot.
      rewrite (Hk a) by (auto; now left).
      rewrite <- (Hk x0) by (auto; now right). now apply in_map.
    + apply IH; auto. intros; apply Hk; auto. now right.
Qed.

(** Under the unique index a pair has exactly one latest row. *)
Lemma latest_of_pair db g :
  unique_key db -> In g db ->
  exists c,
    List.filter (same_group g) (latest_rows db) = [c]
    /\ latest_of db g = Some c
    /\ In c db /\ same_group g c = true
    /\ Certificate.valid_to c = max_to db g.
Proof.
  intros Hu Hg.
  destruct (max_to_attained db g Hg) as (c & Hc & Hgc & Hcv).
  assert (is_latest db c = true) as Hlat.
  { unfold is_latest. rewrite <- (max_to_same_group db g c Hg Hc Hgc). lia. }
  assert (List.filter (fun x => same_group g x && is_latest db x) db = [c]) as Hf.
  { apply (filter_unique full_key _
             (Certificate.trainset_id g, Certificate.dept g, max_to db g)); auto.
    - intros x Hx Hp. apply andb_true_iff in Hp as [Hgx Hlx].
      unfold is_latest in Hlx. apply Z.eqb_eq in Hlx.
      rewrite <- (max_to_same_group db g x Hg Hx Hgx) in Hlx.
      apply same_group_spec in Hgx as [? ?]. unfold full_key. congruence.
    - now rewrite Hgc, Hlat. }
  exists c. repeat split; auto.
  - rewrite latest_rows_filter, <- filter_and.
    erewrite filter_ext; [exact Hf|]. intros x. apply andb_comm.
  - unfold latest_of.
    assert (In c (List.filter (fun x => same_group g x && is_latest db x) db))
      as Hin by (rewrite Hf; now left).
    destruct (find _ db) as [c'|] eqn:Hfind.
    + apply find_some in Hfind as [Hc' Hp'].
      assert (In c' (List.filter (fun x => same_group g x && is_latest db x) db))
        as Hin' by (apply filter_In; auto).
      rewrite Hf in Hin'. destruct Hin' as [->|[]]. reflexivity.
    + apply filter_In in Hin as [? Hp]. eapply find_none in Hfind; eauto. congruence.
Qed.

(** C5. Among the records of a pair, the latest-record selection of the
    reporter returns exactly one, the one whose [valid_to] is the
    maximum, and it returns the same one however the table is ordered. *)
Theorem latest_rows_max_valid_to (db : table) (g : Certificate.t) :
  unique_key db -> In g db ->
  exists c,
    List.filter (same_group g) (latest_rows db) = [c]
    /\ In c db /\ same_group g c = true
    /\ (forall c', In c' db -> same_group g c' = true ->
                   Certificate.valid_to c' <= Certificate.valid_to c)
    /\ (forall db', Permutation db db' ->
                    List.filter (same_group g) (latest_rows db') = [c]).
Proof.
  intros Hu Hg.
  destruct (latest_of_pair db g Hu Hg) as (c & Hf & _ & Hc & Hgc & Hcv).
  exists c. repeat split; auto.
  - intros c' Hc' Hgc'. rewrite Hcv. now apply max_to_ge.
  - intros db' Hperm.
    assert (unique_key db') as Hu'.
    { unfold unique_key in *. eapply Permutation_NoDup; [|exact Hu].
      now apply Permutation_map. }
    assert (In g db') as Hg' by (eapply Permutation_in; eauto).
    destruct (latest_of_pair db' g Hu' Hg') as (c' & Hf' & _ & Hc' & Hgc' & Hcv').
    rewrite Hf'. f_equal.
    assert (In c' db) as Hc'db by (eapply Permutation_in; [symmetry|]; eauto).
    assert (In c db') as Hcdb' by (eapply Permutation_in; eauto).
    pose proof (max_to_ge db g c' Hc'db Hgc').
    pose proof (max_to_ge db' g c Hcdb' Hgc).
    apply (NoDup_map_inj full_key db); auto.
    apply same_group_spec in Hgc as [? ?]. apply same_group_spec in Hgc' as [? ?].
    unfold full_key. f_equal; [f_equal; congruence|lia].
Qed.

Lemma latest_rows_max_valid_to_witness :
  exists c,
    List.filter (same_group (cert 2 "T1" "RS" None (Cal.at_midnight 2020 1 1)))
      (latest_rows history_db) = [c]
    /\ Certificate.valid_to c = Cal.at_midnight 2099 12 31.
Proof.
  destruct (latest_rows_max_valid_to history_db
              (cert 2 "T1" "RS" None (Cal.at_midnight 2020 1 1)))
    as (c & Hf & _).
  - unfold unique_key. vm_compute.
    repeat (constructor; [simpl; intuition discriminate|]). constructor.
  - right; left; reflexivity.
  - exists c. split; [exact Hf|].
    vm_compute in Hf. injection Hf as <-. reflexivity.
Defined.

(** *** Counting rows by pair *)

Lemma length_filter_sum {A} (p : A -> bool) l :
  length (List.filter p l) = list_sum (map (fun x => if p x then 1%nat else 0%nat) l).
Proof.
  induction l as [|x l IH]; simpl; [reflexivity|].
  destruct (p x); simpl; now rewrite IH.
Qed.

Lemma list_sum_ext {A} (f g : A -> nat) l :
  (forall x, In x l -> f x = g x) -> list_sum (map f l) = list_sum (map g l).
Proof.
  induction l as [|x l IH]; intros H; simpl; [reflexivity|].
  rewrite (H x) by now left. f_equal. apply IH. intros; apply H; now right.
Qed.

Lemma list_sum_plus {A} (f g : A -> nat) l :
  list_sum (map (fun x => (f x + g x)%nat) l)
  = (list_sum (map f l) + list_sum (map g l))%nat.
Proof. induction l as [|x l IH]; simpl; [reflexivity|]. rewrite IH. lia. Qed.

Lemma list_sum_zero {A} (l : list A) : list_sum (map (fun _ => 0%nat) l) = 0%nat.
Proof. induction l; simpl; auto. Qed.

(** Counting the pairs of a relation row by row or column by column. *)
Lemma double_count {A B} (q : A -> B -> bool) (l : list A) (m : list B) :
  list_sum (map (fun x => length (List.filter (q x) m)) l)
  = list_sum (map (fun y => length (List.filter (fun x => q x y) l)) m).
Proof.
  induction l as [|a l IH]; simpl.
  - now rewrite list_sum_zero.
  - rewrite IH, length_filter_sum, <- list_sum_plus.
    apply list_sum_ext. intros y _. now destruct (q a y).
Qed.

Lemma group_by_In t : forall seen g, In g (group_by t seen) -> In g t.
Proof.
  induction t as [|x t IH]; intros seen g Hg; simpl in Hg; [destruct Hg|].
  destruct (existsb _ seen); [right; eauto|].
  destruct Hg as [->|Hg]; [now left|right; eauto].
Qed.

Lemma count_latest_by_pair (P : Certificate.t -> bool) (db : table) :
  unique_key db ->
  length (List.filter P (latest_rows db))
  = length (List.filter (fun g => match latest_of db g with
                                  | Some c => P c
                                  | None => false
                                  end) (group_by db [])).
Proof.
  intros Hu.
  rewrite (length_filter_sum P).
  rewrite (list_sum_ext _
             (fun c => length (List.filter (fun g => same_group c g && P c)
                                 (group_by db [])))).
  2:{ intros c Hc.
      assert (In c db) as Hcdb.
      { rewrite latest_rows_filter in Hc. now apply filter_In in Hc. }
      destruct (group_by_one db [] c Hcdb) as (g & Hg & _ & _); [intros s []|].
      rewrite filter_and, Hg. simpl. now destruct (P c). }
  rewrite (double_count (fun c g => same_group c g && P c)).
  rewrite length_filter_sum.
  apply list_sum_ext. intros g Hg. apply group_by_In in Hg.
  destruct (latest_of_pair db g Hu Hg) as (c & Hf & -> & _).
  rewrite (filter_ext _ (fun x => same_group g x && P x)), filter_and, Hf.
  - simpl. now destruct (P c).
  - intros x. now rewrite same_group_sym.
Qed.

(** *** The reporter queries *)

Section Reporter.

Variable parse_cell : to_datetime_kw -> Series -> pyvalue -> option datetime.
Variable parse_scalar : string -> option datetime.

Lemma dates_ok_latest db c :
  dates_ok db -> In c (latest_rows db) -> localizable (Certificate.valid_to c) = true.
Proof.
  intros Hok Hc. rewrite latest_rows_filter in Hc. apply filter_In in Hc as [Hc _].
  unfold dates_ok in Hok. rewrite List.Forall_forall in Hok. now apply Hok.
Qed.

Lemma total_loop_count now l : forall n,
  (forall c, In c l -> localizable (Certificate.valid_to c) = true) ->
  total_loop parse_scalar now l n
  = Ret (n + length (List.filter (active_now now) l))%nat.
Proof.
  induction l as [|c l IH]; intros n Hok; simpl.
  - f_equal. lia.
  - unfold total_step. rewrite _to_dt_stored by (apply Hok; now left).
    cbn [obind List.filter].
    assert ((_valid_status_clause (Certificate.status c)
             || match Certificate.status c with None => true | Some _ => false end)
            && (now <=? Certificate.valid_to c) = active_now now c) as ->.
    { unfold active_now, _valid_status_clause, in_valid_set.
      destruct (Certificate.status c); [now rewrite orb_false_r|reflexivity]. }
    destruct (active_now now c); cbn [obind length];
      rewrite IH by (intros; apply Hok; now right); f_equal; lia.
Qed.

(** C1, amended. [total_active] counts a pair exactly when its latest
    record has an absent status or one in the synonym set and, in either
    case, an expiry that is not before [now]; no day window applies. *)
Theorem total_active_counts_active_pairs (now : datetime) (db : table) :
  unique_key db -> dates_ok db ->
  total_active parse_cell parse_scalar None now db
  = (Ret (length (List.filter (pair_active now db) (group_by db []))), db).
Proof.
  intros Hu Hok. unfold total_active, upsert_first. simpl. f_equal.
  rewrite total_loop_count by (intros; eapply dates_ok_latest; eauto).
  simpl. f_equal. apply (count_latest_by_pair (active_now now) db Hu).
Qed.

Lemma expiring_loop_rows days now l : forall acc,
  (forall c, In c l -> localizable (Certificate.valid_to c) = true) ->
  expiring_loop parse_scalar days now l acc
  = Ret (acc ++ flat_map (reported days now) l).
Proof.
  induction l as [|c l IH]; intros acc Hok; simpl.
  - now rewrite app_nil_r.
  - unfold expiring_step. rewrite _to_dt_stored by (apply Hok; now left).
    cbn [obind]. unfold reported at 1, in_window, report_row.
    destruct (expiring_gate _ _ _); cbn [negb andb].
    + destruct (_ && _); cbn [obind]; rewrite IH by (intros; apply Hok; now right);
        [now rewrite <- app_assoc|reflexivity].
    + cbn [obind]. now rewrite IH by (intros; apply Hok; now right).
Qed.

(** C3. A latest record that passes the validity gate is in the report
    for [days] exactly when the difference between the calendar date of
    its expiry and today's calendar date lies between 0 and [days]. *)
Theorem expiring_within_calendar_window
  (days : Z) (now : datetime) (db : table) (c : Certificate.t) :
  dates_ok db ->
  In c (latest_rows db) ->
  expiring_gate (Certificate.status c) (Certificate.valid_to c) now = true ->
  exists report,
    expiring_within parse_cell parse_scalar days None now db = (Ret report, db)
    /\ (In (report_row now c) report
        <-> 0 <= Cal.date (Certificate.valid_to c) - Cal.date now <= days).
Proof.
  intros Hok Hc Hgate.
  unfold expiring_within, upsert_first. simpl.
  rewrite expiring_loop_rows by (intros; eapply dates_ok_latest; eauto). simpl.
  eexists; split; [reflexivity|].
  rewrite sort_by_In, in_flat_map. split.
  - intros (c' & _ & Hrep). unfold reported in Hrep.
    destruct (_ && _) eqn:Hk; [|destruct Hrep].
    destruct Hrep as [Heq|[]].
    apply andb_true_iff in Hk as [_ Hw]. unfold in_window in Hw.
    apply andb_true_iff in Hw as [H0 Hd]. apply Z.leb_le in H0, Hd.
    assert (days_to_expiry (report_row now c') = days_to_expiry (report_row now c))
      as Hdelta by now rewrite Heq.
    simpl in Hdelta. lia.
  - intros [H0 Hd]. exists c. split; [exact Hc|].
    unfold reported, in_window. rewrite Hgate.
    apply Z.leb_le in H0, Hd. rewrite H0, Hd. now left.
Qed.

End Reporter.

(** Expiry tomorrow at 18:30, read today at 10:00: one calendar day out,
    so reported for one day and not for zero days. *)
Lemma expiring_within_calendar_window_witness :
  (exists report,
     expiring_within sample_parse_cell sample_parse_scalar 1 None sample_now tomorrow_db
     = (Ret report, tomorrow_db)
     /\ In (report_row sample_now (cert 1 "T1" "RS" None
                                     (Cal.at_midnight 2026 11 5 + 66600000000))) report)
  /\ (exists report,
        expiring_within sample_parse_cell sample_parse_scalar 0 None sample_now tomorrow_db
        = (Ret report, tomorrow_db)
        /\ ~ In (report_row sample_now (cert 1 "T1" "RS" None
                                          (Cal.at_midnight 2026 11 5 + 66600000000)))
                report).
Proof.
  assert (dates_ok tomorrow_db) as Hok
    by (repeat constructor).
  assert (In (cert 1 "T1" "RS" None (Cal.at_midnight 2026 11 5 + 66600000000))
             (latest_rows tomorrow_db)) as Hin by (left; reflexivity).
  split.
  - destruct (expiring_within_calendar_window sample_parse_cell sample_parse_scalar
                1 sample_now tomorrow_db _ Hok Hin eq_refl) as (report & Hrun & Hiff).
    exists report. split; [exact Hrun|]. apply Hiff. vm_compute. split; discriminate.
  - destruct (expiring_within_calendar_window sample_parse_cell sample_parse_scalar
                0 sample_now tomorrow_db _ Hok Hin eq_refl) as (report & Hrun & Hiff).
    exists report. split; [exact Hrun|]. intros H. apply Hiff in H.
    vm_compute in H. destruct H as [_ H]. now apply H.
Defined.

Lemma total_active_counts_active_pairs_witness :
  total_active sample_parse_cell sample_parse_scalar None sample_now history_db
  = (Ret 1%nat, history_db).
Proof.
  rewrite (total_active_counts_active_pairs sample_parse_cell sample_parse_scalar
             sample_now history_db).
  - reflexivity.
  - unfold unique_key. vm_compute.
    repeat (constructor; [simpl; intuition discriminate|]). constructor.
  - repeat constructor.
Defined.

(** *** The CSV upsert, row by row *)

Section Upsert.

Variable parse_cell : to_datetime_kw -> Series -> pyvalue -> option datetime.
Variable parse_scalar : string -> option datetime.

Lemma flush_view s T :
  dirty s = [] -> view s = Ret T ->
  flush s = (Ret tt, mk_sess (committed s) T [] []).
Proof.
  intros Hd Hv. unfold flush. rewrite Hd. cbn [write_all obind].
  unfold view in Hv. now rewrite Hv.
Qed.

Lemma upsert_row_pure r counts s T :
  dirty s = [] -> view s = Ret T ->
  match row_outcome parse_scalar r with
  | Raise e => upsert_row parse_scalar r counts s = (Raise e, s)
  | Ret None => upsert_row parse_scalar r counts s = (Ret (fst counts, S (snd counts)), s)
  | Ret (Some rec) =>
      upsert_row parse_scalar r counts s
      = if existsb (same_key rec) T
        then (Ret (fst counts, S (snd counts)), mk_sess (committed s) T [] [])
        else (Ret (S (fst counts), snd counts), mk_sess (committed s) T [rec] [])
  end.
Proof.
  intros Hd Hv. unfold row_outcome, upsert_row, sbind, lift.
  destruct (_to_dt parse_scalar (r_vto r)) as [[vt|]|e]; cbn [obind]; try reflexivity.
  destruct (match r_vfrom r with Some v => _ | None => _ end) as [vf|e];
    cbn [obind]; try reflexivity.
  unfold db_execute, sbind. rewrite (flush_view s T Hd Hv). cbn [working].
  destruct (existsb _ T); reflexivity.
Qed.

Lemma upsert_rows_pure rs : forall counts s T,
  dirty s = [] -> view s = Ret T ->
  match pure_rows parse_scalar rs counts T with
  | Ret (counts', T') =>
      exists s', upsert_rows parse_scalar rs counts s = (Ret counts', s')
                 /\ committed s' = committed s /\ dirty s' = [] /\ view s' = Ret T'
  | Raise e =>
      exists s', upsert_rows parse_scalar rs counts s = (Raise e, s')
                 /\ committed s' = committed s
  end.
Proof.
  induction rs as [|r rs IH]; intros counts s T Hd Hv.
  - simpl. exists s. auto.
  - cbn [pure_rows upsert_rows]. unfold sbind.
    pose proof (upsert_row_pure r counts s T Hd Hv) as Hrow.
    destruct (row_outcome parse_scalar r) as [[rec|]|e]; cbn [obind].
    + destruct (existsb (same_key rec) T) eqn:Hex; rewrite Hrow.
      * apply (IH _ (mk_sess (committed s) T [] []) T); reflexivity.
      * apply (IH _ (mk_sess (committed s) T [rec] [])
                 (T ++ [Certificate.with_id (next_id T) rec])); [reflexivity|].
        unfold view, sql_insert. cbn. now rewrite Hex.
    + rewrite Hrow. now apply IH.
    + rewrite Hrow. exists s. auto.
Qed.

(** A row whose expiry cell is [NaT] makes the loop raise, wherever it
    stands in the file and whatever the table holds. *)
Lemma pure_rows_NaT rs : forall counts T,
  Exists (fun r => r_vto r = PyNaT) rs ->
  exists e, pure_rows parse_scalar rs counts T = Raise e.
Proof.
  induction rs as [|r rs IH]; intros counts T Hex; [now apply Exists_nil in Hex|].
  cbn [pure_rows].
  destruct (row_outcome parse_scalar r) as [[rec|]|e] eqn:Hrow; cbn [obind]; [| |eauto].
  - apply Exists_cons in Hex as [Hr|Hex].
    + unfold row_outcome in Hrow. rewrite Hr, _to_dt_NaT in Hrow. discriminate.
    + destruct (existsb _ T); now apply IH.
  - apply Exists_cons in Hex as [Hr|Hex].
    + unfold row_outcome in Hrow. rewrite Hr, _to_dt_NaT in Hrow. discriminate.
    + now apply IH.
Qed.

(** The whole call in terms of the pure loop. *)
Lemma upsert_from_csv_pure src db :
  upsert_from_csv parse_cell parse_scalar src db
  = match read_rows parse_cell src with
    | inl msg => (Ret (upsert_error msg), db)
    | inr rs =>
        match pure_rows parse_scalar rs (O, O) db with
        | Ret (counts, T) =>
            (Ret (mk_upsert (fst counts) (snd counts) None (Some "ok")), T)
        | Raise e => (Raise e, db)
        end
    end.
Proof.
  unfold upsert_from_csv. destruct (read_rows parse_cell src) as [msg|rs]; [reflexivity|].
  unfold with_session, sbind.
  pose proof (upsert_rows_pure rs (O, O) (mk_sess db db [] []) db eq_refl eq_refl) as H.
  destruct (pure_rows parse_scalar rs (O, O) db) as [[counts T]|e].
  - destruct H as (s' & -> & Hc & Hd & Hv).
    unfold db_commit, sbind. rewrite (flush_view s' T Hd Hv). reflexivity.
  - destruct H as (s' & -> & Hc). now rewrite Hc.
Qed.

Lemma upsert_from_csv_NaT src db rs :
  read_rows parse_cell src = inr rs ->
  Exists (fun r => r_vto r = PyNaT) rs ->
  exists e, upsert_from_csv parse_cell parse_scalar src db = (Raise e, db).
Proof.
  intros Hread Hex. rewrite upsert_from_csv_pure, Hread.
  destruct (pure_rows_NaT rs (O, O) db Hex) as [e ->]. eauto.
Qed.

Lemma existsb_app_l {A} (p : A -> bool) l l' :
  existsb p l = true -> existsb p (l ++ l') = true.
Proof. intros H. rewrite existsb_app, H. reflexivity. Qed.

Lemma pure_rows_extends rs : forall counts T counts' T',
  pure_rows parse_scalar rs counts T = Ret (counts', T') -> exists suffix, T' = T ++ suffix.
Proof.
  induction rs as [|r rs IH]; intros counts T counts' T'; cbn [pure_rows].
  - intros [= _ <-]. exists []. now rewrite app_nil_r.
  - destruct (row_outcome parse_scalar r) as [[rec|]|e]; cbn [obind]; try discriminate.
    + destruct (existsb _ T); intros H; apply IH in H as [suffix ->]; eauto.
      rewrite <- app_assoc. eauto.
    + apply IH.
Qed.

Lemma pure_rows_settles rs : forall counts T counts' T',
  pure_rows parse_scalar rs counts T = Ret (counts', T') -> Forall (settled parse_scalar T') rs.
Proof.
  induction rs as [|r rs IH]; intros counts T counts' T'; cbn [pure_rows].
  - constructor.
  - destruct (row_outcome parse_scalar r) as [[rec|]|e] eqn:Hrow; cbn [obind]; try discriminate.
    + destruct (existsb (same_key rec) T) eqn:Hex; intros H.
      * constructor; [|eapply IH; eauto].
        exists (Some rec). split; [exact Hrow|]. intros ? [= <-].
        apply pure_rows_extends in H as [suffix ->]. now apply existsb_app_l.
      * constructor; [|eapply IH; eauto].
        exists (Some rec). split; [exact Hrow|]. intros ? [= <-].
        apply pure_rows_extends in H as [suffix ->].
        apply existsb_app_l. rewrite existsb_app. cbn.
        unfold same_key. cbn. rewrite !String.eqb_refl, Z.eqb_refl.
        now rewrite orb_true_r.
    + intros H. constructor; [|eapply IH; eauto].
      exists None. split; [exact Hrow|discriminate].
Qed.

Lemma pure_rows_settled rs : forall counts T,
  Forall (settled parse_scalar T) rs ->
  pure_rows parse_scalar rs counts T = Ret ((fst counts, (snd counts + length rs)%nat), T).
Proof.
  induction rs as [|r rs IH]; intros [i k] T Hall; cbn [pure_rows length fst snd].
  - do 3 f_equal. lia.
  - apply Forall_cons_iff in Hall as [(o & Ho & Hex) Hall]. rewrite Ho. cbn [obind].
    destruct o as [rec|].
    + rewrite (Hex rec eq_refl). rewrite IH by exact Hall. cbn. do 3 f_equal. lia.
    + rewrite IH by exact Hall. cbn. do 3 f_equal. lia.
Qed.

End Upsert.

(** *** The rows the loop walks *)

Section Prepared.

Variable parse_cell : to_datetime_kw -> Series -> pyvalue -> option datetime.
Variable parse_scalar : string -> option datetime.

Lemma _pick_In cols cands c : _pick cols cands = Some c -> In c cands.
Proof.
  induction cands as [|a cands IH]; simpl; [discriminate|].
  destruct (existsb _ cols); [intros [= ->]; now left|right; auto].
Qed.

Lemma zip_insert_boxed label (rs : list (gmap string pyvalue)) : forall xs,
  Forall (boxed_at label)
    (zip_with (fun r v => <[label := v]> r) rs (map box_datetime xs)).
Proof.
  induction rs as [|r rs IH]; intros [|x xs]; simpl; constructor; auto.
  exists x. apply lookup_insert_eq.
Qed.

Lemma zip_insert_other label other (rs : list (gmap string pyvalue)) : forall vs,
  other <> label ->
  Forall (boxed_at label) rs ->
  Forall (boxed_at label) (zip_with (fun r v => <[other := v]> r) rs vs).
Proof.
  induction rs as [|r rs IH]; intros [|v vs] Hne Hall; simpl; try constructor.
  - apply Forall_cons_iff in Hall as [[x Hx] _].
    exists x. now rewrite lookup_insert_ne.
  - apply Forall_cons_iff in Hall as [_ Hall]. now apply IH.
Qed.

Lemma prepare_vto_boxed raw train dept vto vfrom stat :
  dept <> vto ->
  (forall c, stat = Some c -> c <> vto) ->
  Forall (fun r => exists x, r_vto r = box_datetime x)
    (prepare parse_cell raw train dept vto vfrom stat).
Proof.
  intros Hdept Hstat. unfold prepare, iterrows.
  set (raw1 := match vfrom with Some c => _ | None => raw end).
  apply Forall_map.
  assert (Forall (boxed_at vto) (df_rows (parse_dates_column parse_cell raw1 vto))) as H2.
  { unfold parse_dates_column, set_column. cbn [df_rows]. apply zip_insert_boxed. }
  set (raw2 := parse_dates_column parse_cell raw1 vto) in *.
  assert (Forall (boxed_at vto)
            (df_rows match stat with
                     | Some c => set_column raw2 c (map map_status (get_column raw2 c))
                     | None => raw2
                     end)) as H3.
  { destruct stat as [c|]; [|exact H2].
    unfold set_column. cbn [df_rows].
    apply (zip_insert_other vto c _ _ (Hstat c eq_refl) H2). }
  set (raw3 := match stat with Some c => _ | None => raw2 end) in *.
  unfold set_column at 1. cbn [df_rows].
  eapply Forall_impl; [apply (zip_insert_other vto dept _ _ Hdept H3)|].
  intros r [x Hx]. exists x. cbn [r_vto]. unfold cell. now rewrite Hx.
Qed.

Lemma disjoint_names a b c :
  In a VTO_NAMES -> In b DEPT_NAMES -> In c STAT_NAMES -> b <> a /\ c <> a.
Proof.
  unfold VTO_NAMES, DEPT_NAMES, STAT_NAMES. simpl.
  intros Ha Hb Hc.
  repeat (destruct Ha as [<-|Ha]; [|]); try destruct Ha;
    (repeat (destruct Hb as [<-|Hb]; [|]); try destruct Hb);
    (repeat (destruct Hc as [<-|Hc]; [|]); try destruct Hc);
    split; discriminate.
Qed.

Lemma read_rows_vto_boxed src rs :
  read_rows parse_cell src = inr rs ->
  Forall (fun r => exists x, r_vto r = box_datetime x) rs.
Proof.
  unfold read_rows. destruct src as [path|path df]; [discriminate|].
  destruct (df_empty _); [discriminate|].
  set (cols := df_columns (_norm_cols df)).
  pose proof (_pick_In cols DEPT_NAMES) as Hd.
  pose proof (_pick_In cols VTO_NAMES) as Hv.
  pose proof (_pick_In cols STAT_NAMES) as Hs.
  destruct (_pick cols TRAIN_NAMES) as [train|]; [|discriminate].
  destruct (_pick cols DEPT_NAMES) as [dept|]; [|discriminate].
  destruct (_pick cols VTO_NAMES) as [vto|]; [|discriminate].
  specialize (Hd dept eq_refl). specialize (Hv vto eq_refl).
  generalize dependent (_pick cols STAT_NAMES). intros stat Hs Heq.
  injection Heq as <-.
  apply prepare_vto_boxed.
  - destruct (disjoint_names vto dept "status" Hv Hd) as [? _]; [now left|assumption].
  - intros c ->. now destruct (disjoint_names vto dept c Hv Hd (Hs c eq_refl)).
Qed.

(** A boxed expiry never normalizes to "no value": a timestamp is
    localized, and [NaT] raises. *)
Lemma boxed_not_none x : _to_dt parse_scalar (box_datetime x) <> Ret None.
Proof.
  destruct x as [d|]; simpl.
  - rewrite _to_dt_datetime. unfold localize. destruct (localizable d); discriminate.
  - rewrite _to_dt_NaT. discriminate.
Qed.

End Prepared.

(** *** Ingesting the same file twice *)

Section Twice.

Variable parse_cell : to_datetime_kw -> Series -> pyvalue -> option datetime.
Variable parse_scalar : string -> option datetime.

Lemma settled_boxed_normalise T rs :
  Forall (settled parse_scalar T) rs ->
  Forall (fun r => exists x, r_vto r = box_datetime x) rs ->
  List.filter (normalises parse_scalar) rs = rs.
Proof.
  induction rs as [|r rs IH]; intros Hs Hb; [reflexivity|].
  apply Forall_cons_iff in Hs as [(o & Ho & _) Hs].
  apply Forall_cons_iff in Hb as [[x Hx] Hb].
  cbn [List.filter].
  assert (normalises parse_scalar r = true) as ->.
  { unfold normalises. unfold row_outcome in Ho.
    pose proof (boxed_not_none parse_scalar x) as Hnn. rewrite <- Hx in Hnn.
    destruct (_to_dt parse_scalar (r_vto r)) as [[vt|]|e];
      [reflexivity|congruence|cbn in Ho; discriminate]. }
  f_equal. now apply IH.
Qed.

(** C6. When a call of [upsert_from_csv] on a file has returned, a second
    call on the same file imports nothing, leaves the table as it is, and
    its [skipped] is the number of rows whose expiry normalized. *)
Theorem upsert_twice_skips_parsed_rows
  (src : csv_source) (db : table) (r1 : upsert_result) (db1 : table) :
  upsert_from_csv parse_cell parse_scalar src db = (Ret r1, db1) ->
  exists r2,
    upsert_from_csv parse_cell parse_scalar src db1 = (Ret r2, db1)
    /\ imported r2 = 0%nat
    /\ skipped r2 = parsed_count parse_cell parse_scalar src.
Proof.
  rewrite !upsert_from_csv_pure. unfold parsed_count.
  destruct (read_rows parse_cell src) as [msg|rs] eqn:Hread.
  - intros Heq. injection Heq as <- <-.
    eexists. split; [reflexivity|]. split; reflexivity.
  - destruct (pure_rows parse_scalar rs (O, O) db) as [[counts T]|e] eqn:Hrun;
      [|discriminate].
    intros Heq. injection Heq as <- <-.
    pose proof (pure_rows_settles parse_scalar rs _ _ _ _ Hrun) as Hset.
    rewrite (pure_rows_settled parse_scalar rs (O, O) T Hset). cbn [fst snd].
    eexists. split; [reflexivity|]. cbn [imported skipped]. split; [reflexivity|].
    rewrite (settled_boxed_normalise T rs Hset (read_rows_vto_boxed parse_cell _ _ Hread)).
    reflexivity.
Qed.

End Twice.

(** The two-version file of T1 / Rolling Stock, ingested into an empty
    table and then once more. *)
Lemma upsert_twice_skips_parsed_rows_witness :
  exists r2,
    upsert_from_csv sample_parse_cell sample_parse_scalar history_csv
      (snd (upsert_from_csv sample_parse_cell sample_parse_scalar history_csv []))
    = (Ret r2, snd (upsert_from_csv sample_parse_cell sample_parse_scalar history_csv []))
    /\ imported r2 = 0%nat
    /\ skipped r2 = 2%nat.
Proof.
  destruct (upsert_twice_skips_parsed_rows sample_parse_cell sample_parse_scalar
              history_csv [] (mk_upsert 2 0 None (Some "ok"))
              (snd (upsert_from_csv sample_parse_cell sample_parse_scalar history_csv [])))
    as (r2 & Hrun & Himp & Hskip).
  - vm_compute. reflexivity.
  - exists r2. split; [exact Hrun|]. split; [exact Himp|].
    rewrite Hskip. vm_compute. reflexivity.
Defined.

(* ===================================================================== *)
(** ** Further properties of the module                                   *)
(* ===================================================================== *)

(** *** [delete_certificate] *)

Lemma find_has_id_none (db : table) cert_id :
  (forall c, In c db -> Certificate.id c <> Some cert_id) ->
  find (fun r => match Certificate.id r with
                 | Some i => i =? cert_id
                 | None => false
                 end) db = None.
Proof.
  intros Hno. destruct (find _ db) as [c|] eqn:Hf; [|reflexivity].
  apply find_some in Hf as [Hin Hid]. exfalso. apply (Hno c Hin).
  destruct (Certificate.id c) as [i|]; [|discriminate].
  apply Z.eqb_eq in Hid. now subst.
Qed.

(** X1. Deleting an id that SQLite can bind and no row carries is
    reported as such and changes nothing. *)
Theorem delete_unknown_id (cert_id : Z) (db : table) :
  sqlite_int cert_id ->
  (forall c, In c db -> Certificate.id c <> Some cert_id) ->
  delete_certificate cert_id db = (Ret (mk_delete 0 (Some "not found")), db).
Proof.
  intros _ Hno. unfold delete_certificate, with_session, sbind, db_get.
  cbn [working]. now rewrite find_has_id_none.
Qed.

Lemma delete_unknown_id_witness :
  delete_certificate 7 history_db = (Ret (mk_delete 0 (Some "not found")), history_db).
Proof.
  apply delete_unknown_id.
  - unfold sqlite_int. lia.
  - intros c Hc.
    repeat (destruct Hc as [<-|Hc]; [discriminate|]). destruct Hc.
Defined.

Lemma delete_certificate_found (cert_id : Z) (db : table) (c : Certificate.t) :
  In c db -> Certificate.id c = Some cert_id ->
  delete_certificate cert_id db
  = (Ret (mk_delete 1 None), List.filter (fun r => negb (has_id cert_id r)) db).
Proof.
  intros Hin Hid.
  destruct (find_id_exists db cert_id) as [c0 Hfind]; [eauto|].
  assert (Certificate.id c0 = Some cert_id) as Hid0.
  { apply find_some in Hfind as [_ H]. destruct (Certificate.id c0); [|discriminate].
    apply Z.eqb_eq in H. now subst. }
  assert (forall r, negb (same_id r c0) = negb (has_id cert_id r)) as Hsame.
  { intros r. unfold same_id, has_id. rewrite Hid0. now destruct (Certificate.id r). }
  unfold delete_certificate, with_session, sbind, db_get. cbn [working].
  rewrite Hfind. unfold db_delete, db_commit, sbind, flush. cbn.
  now rewrite (filter_ext _ _ Hsame).
Qed.

Lemma filter_has_id_In cert_id (db : table) r :
  In r (List.filter (fun r => negb (has_id cert_id r)) db)
  <-> In r db /\ Certificate.id r <> Some cert_id.
Proof.
  rewrite filter_In. unfold has_id.
  destruct (Certificate.id r) as [i|]; simpl.
  - destruct (Z.eqb_spec i cert_id) as [->|Hne]; simpl.
    + split; [intros [_ ?]; discriminate|intros [_ ?]; congruence].
    + split; intros [? _]; (split; [assumption|]); [congruence|reflexivity].
  - split; intros [? _]; (split; [assumption|]); [discriminate|reflexivity].
Qed.

(** X2. Deleting the id of a stored row answers [{"deleted": 1}]; the table
    that is left holds exactly the rows of the other ids, and deleting
    the same id again is answered with "not found". *)
Theorem delete_removes_the_row (cert_id : Z) (db : table) (c : Certificate.t) :
  In c db -> Certificate.id c = Some cert_id ->
  exists db',
    delete_certificate cert_id db = (Ret (mk_delete 1 None), db')
    /\ db' = List.filter (fun r => negb (has_id cert_id r)) db
    /\ (forall r, In r db' <-> In r db /\ Certificate.id r <> Some cert_id)
    /\ delete_certificate cert_id db' = (Ret (mk_delete 0 (Some "not found")), db').
Proof.
  intros Hin Hid. eexists.
  split; [now apply (delete_certificate_found cert_id db c)|].
  split; [reflexivity|]. split; [apply filter_has_id_In|].
  unfold delete_certificate, with_session, sbind, db_get. cbn [working].
  rewrite find_has_id_none; [reflexivity|].
  intros r Hr. now apply filter_has_id_In in Hr.
Qed.

Lemma delete_removes_the_row_witness :
  exists db',
    delete_certificate 2 history_db = (Ret (mk_delete 1 None), db')
    /\ map Certificate.id db' = [Some 1; Some 3].
Proof.
  destruct (delete_removes_the_row 2 history_db
              (cert 2 "T1" "RS" None (Cal.at_midnight 2020 1 1)))
    as (db' & Hrun & Heq & _).
  - right; left; reflexivity.
  - reflexivity.
  - exists db'. split; [exact Hrun|]. rewrite Heq. reflexivity.
Defined.

(** *** What a session commits *)

Lemma quiet_sret {A} (a : A) : quiet (sret a).
Proof. intros s. reflexivity. Qed.

Lemma quiet_lift {A} (m : outcome A) : quiet (lift m).
Proof. intros s. reflexivity. Qed.

Lemma quiet_db_get cert_id : quiet (db_get cert_id).
Proof. intros s. reflexivity. Qed.

Lemma quiet_db_modified c : quiet (db_modified c).
Proof. intros s. reflexivity. Qed.

Lemma quiet_db_add c : quiet (db_add c).
Proof. intros s. reflexivity. Qed.

Lemma quiet_db_delete c : quiet (db_delete c).
Proof. intros s. reflexivity. Qed.

Lemma quiet_db_refresh c : quiet (db_refresh c).
Proof. intros s. reflexivity. Qed.

Lemma quiet_flush : quiet flush.
Proof. intros s. unfold flush. now destruct (obind _ _). Qed.

Lemma quiet_bind {A B} (m : session A) (k : A -> session B) :
  quiet m -> (forall a, quiet (k a)) -> quiet (sbind m k).
Proof.
  intros Hm Hk s. unfold sbind. specialize (Hm s).
  destruct (m s) as [[a|e] s']; cbn [snd] in *; [|assumption].
  now rewrite Hk.
Qed.

Lemma quiet_db_execute {A} (q : table -> A) : quiet (db_execute q).
Proof.
  unfold db_execute. apply quiet_bind; [apply quiet_flush|].
  intros _ s. reflexivity.
Qed.

Lemma commits_only_quiet {A} (P : A -> Prop) (m : session A) :
  quiet m -> commits_only_for P m.
Proof. intros Hm s. left. apply Hm. Qed.

Lemma commits_only_bind {A B} (P : B -> Prop) (m : session A) (k : A -> session B) :
  quiet m -> (forall a, commits_only_for P (k a)) -> commits_only_for P (sbind m k).
Proof.
  intros Hm Hk s. unfold sbind. specialize (Hm s).
  destruct (m s) as [[a|e] s']; cbn [snd] in *; [|now left].
  destruct (Hk a s') as [Hc|Hr]; [left; congruence|now right].
Qed.

(** A commit followed by steps that return a result satisfying [P]:
    either the flush raises, and nothing is committed, or the result
    comes back. *)
Lemma commits_only_commit {A} (P : A -> Prop) (k : session A) :
  (forall s, exists a, fst (k s) = Ret a /\ P a) ->
  commits_only_for P (tx _ <- db_commit; k).
Proof.
  intros Hk s. unfold db_commit, sbind.
  pose proof (quiet_flush s) as Hq.
  destruct (flush s) as [[[]|e] s']; cbn [snd] in *; [|now left].
  right. apply Hk.
Qed.

Lemma with_session_commits_only {A} (P : A -> Prop) (body : session A) db r db' :
  commits_only_for P body ->
  with_session body db = (r, db') ->
  db' = db \/ exists a, r = Ret a /\ P a.
Proof.
  intros Hb. unfold with_session.
  specialize (Hb (mk_sess db db [] [])).
  destruct (body _) as [r0 s']. cbn [fst snd committed] in *.
  intros [= <- <-]. exact Hb.
Qed.

Ltac quiet_steps :=
  repeat first
    [ apply quiet_sret | apply quiet_lift | apply quiet_db_get
    | apply quiet_db_modified | apply quiet_db_add | apply quiet_db_delete
    | apply quiet_db_refresh | apply quiet_flush | apply quiet_db_execute
    | apply quiet_bind; [|intros]
    | match goal with
      | |- quiet (match ?x with _ => _ end) => destruct x
      | |- quiet (if ?x then _ else _) => destruct x
      end ].

(** *** [update_certificate] and [add_certificate]: all or nothing *)

Lemma quiet_assign_if patch key c set : quiet (assign_if patch key c set).
Proof. unfold assign_if. quiet_steps. Qed.

(** X5. The table differs after [update_certificate] only when the answer is
    [{"updated": 1}]: a "not found", a rejected date or an exception
    leaves every row as it was. *)
Theorem update_changes_only_on_success
  (parse_scalar : string -> option datetime)
  (cert_id : Z) (patch : gmap string json) (db db' : table)
  (r : outcome update_result) :
  update_certificate parse_scalar cert_id patch db = (r, db') ->
  db' = db \/ r = Ret (mk_update 1 None).
Proof.
  intros Hrun.
  apply (with_session_commits_only (fun a => a = mk_update 1 None)) in Hrun.
  - destruct Hrun as [?|(a & -> & ->)]; auto.
  - apply commits_only_bind; [apply quiet_db_get|]. intros [c|];
      [|apply commits_only_quiet, quiet_sret].
    repeat (apply commits_only_bind; [try apply quiet_assign_if; quiet_steps|intros]).
    destruct (patch !! "valid_to") as [j|].
    + apply commits_only_bind; [apply quiet_lift|]. intros [vt|];
        [|apply commits_only_quiet, quiet_sret].
      apply commits_only_bind; [apply quiet_db_modified|]. intros _.
      apply commits_only_commit. intros s. eexists. split; reflexivity.
    + apply commits_only_commit. intros s. eexists. split; reflexivity.
Qed.

(** X10. The table differs after [add_certificate] only when an id is
    returned. *)
Theorem add_changes_only_on_success
  (parse_scalar : string -> option datetime)
  (record : gmap string json) (db db' : table) (r : outcome add_result) :
  add_certificate parse_scalar record db = (r, db') ->
  db' = db \/ exists i, r = Ret (AddedId i).
Proof.
  unfold add_certificate.
  destruct (_to_dt parse_scalar (dict_get record "valid_to")) as [[vt|]|e];
    try (intros [= <- <-]; now left).
  destruct (_ && _); [|intros [= <- <-]; now left].
  destruct (_to_dt parse_scalar (dict_get record "valid_from")) as [vf|e];
    [|intros [= <- <-]; now left].
  intros Hrun.
  apply (with_session_commits_only (fun a => exists i, a = AddedId i)) in Hrun.
  - destruct Hrun as [?|(a & -> & i & ->)]; eauto.
  - apply commits_only_bind; [apply quiet_db_add|]. intros _.
    apply commits_only_commit. intros s. eexists. split; [reflexivity|eauto].
Qed.

(** *** [_to_dt] *)

Section ToDtMore.

Variable parse_scalar : string -> option datetime.

Lemma _to_dt_some_localizable (v : pyvalue) (dt : datetime) :
  _to_dt parse_scalar v = Ret (Some dt) -> localizable dt = true.
Proof.
  unfold _to_dt.
  destruct (is_empty_marker v); [discriminate|].
  destruct (try_formats _ _) as [d|] eqn:Ht.
  - intros [= <-]. eapply try_formats_localizable; eauto.
  - destruct (is_datetime_instance v).
    + destruct v as [| |d| |]; unfold localize_NaT, localize; cbn [obind];
        try discriminate.
      destruct (localizable d) eqn:Hd; cbn [obind]; [|discriminate].
      intros Heq. injection Heq as <-. exact Hd.
    + unfold to_datetime_scalar.
      destruct (parse_scalar _) as [ts|]; [|discriminate].
      unfold localize. destruct (localizable ts) eqn:Hts; cbn [obind]; [|discriminate].
      intros Heq. injection Heq as <-. exact Hts.
Qed.

(** X15. Whatever datetime [_to_dt] returns is a fixed point of it:
    given back to [_to_dt], as a stored expiry is by the reporter
    queries, it is returned unchanged, without an exception. *)
Theorem _to_dt_fixed_point (v : pyvalue) (dt : datetime) :
  _to_dt parse_scalar v = Ret (Some dt) ->
  _to_dt parse_scalar (PyDatetime dt) = Ret (Some dt).
Proof.
  intros H. apply _to_dt_some_localizable in H. now apply _to_dt_stored.
Qed.

End ToDtMore.

Lemma _to_dt_fixed_point_witness :
  _to_dt sample_parse_scalar (PyDatetime (Cal.at_midnight 9999 12 31))
  = Ret (Some (Cal.at_midnight 9999 12 31)).
Proof.
  apply (_to_dt_fixed_point sample_parse_scalar (PyStr "9999-12-31")).
  vm_compute. reflexivity.
Defined.

(** *** The order of the explicit formats *)

Lemma first_match_none {A B} (k : A -> option B) l :
  (forall a, In a l -> k a = None) -> Strptime.first_match k l = None.
Proof.
  induction l as [|a l IH]; intros H; simpl; [reflexivity|].
  rewrite (H a) by now left. apply IH. intros; apply H; now right.
Qed.

Lemma digit_not_slash c : Str.is_digit c = true -> Ascii.eqb "/" c = false.
Proof.
  intros Hd. destruct (Ascii.eqb_spec "/" c) as [<-|]; [discriminate|reflexivity].
Qed.

(** A day directive reads one or two characters. *)
Lemma alts_d_rest a b s v rest :
  In (v, rest) (Strptime.alts_d (String a (String b s))) ->
  rest = s \/ rest = String b s.
Proof.
  unfold Strptime.alts_d, Strptime.two, Strptime.one, Strptime.space_digit.
  rewrite !in_app_iff.
  intros [H|[H|[H|[H|H]]]];
    match type of H with
    | In _ (if ?c then _ else _) => destruct c
    end;
    simpl in H; try tauto;
    destruct H as [H|[]]; injection H as _ <-; auto.
Qed.

(** A text that starts with four digits does not match [%d/%m/%Y]. *)
Lemma year_first_not_day_first t :
  Strptime.alts_Y t <> [] ->
  Strptime.match_items (Strptime.parse_format "%d/%m/%Y") t Strptime.default_fields = None.
Proof.
  intros HY. unfold Strptime.alts_Y in HY.
  destruct t as [|a [|b [|c [|d t]]]]; try (now elim HY).
  destruct (Str.is_digit a && Str.is_digit b && Str.is_digit c && Str.is_digit d)
    eqn:Hdig; [|now elim HY].
  apply andb_true_iff in Hdig as [Hdig _]. apply andb_true_iff in Hdig as [Hdig Hc].
  apply andb_true_iff in Hdig as [_ Hb].
  change (Strptime.parse_format "%d/%m/%Y")
    with [Strptime.Dd; Strptime.DLit "/"; Strptime.Dm; Strptime.DLit "/"; Strptime.DY].
  cbn [Strptime.match_items].
  apply first_match_none. intros [v rest] Hin. cbn [snd fst].
  apply alts_d_rest in Hin as [->| ->].
  - now rewrite (digit_not_slash c Hc).
  - now rewrite (digit_not_slash b Hb).
Qed.

Section DayFirst.

Variable parse_scalar : string -> option datetime.

(** X16. A text that, once stripped, matches [%d/%m/%Y] is read day first by
    [_to_dt], whatever the later formats and the fallback parser would
    make of it. *)
Theorem _to_dt_day_first (s : string) (dt : datetime) :
  Strptime.strptime (Str.strip s) "%d/%m/%Y" = Ret dt ->
  localizable dt = true ->
  _to_dt parse_scalar (PyStr s) = Ret (Some dt).
Proof.
  intros Hdmy Hloc. unfold _to_dt.
  assert (is_empty_marker (PyStr s) = false) as ->.
  { cbn [is_empty_marker].
    destruct (String.eqb_spec s "") as [->|_]; [vm_compute in Hdmy; discriminate|].
    destruct (String.eqb_spec s "null") as [->|_]; [vm_compute in Hdmy; discriminate|].
    destruct (String.eqb_spec s "NaT") as [->|_]; [vm_compute in Hdmy; discriminate|].
    reflexivity. }
  cbn [py_str]. unfold explicit_formats. cbn [try_formats].
  assert (exists e, Strptime.strptime (Str.strip s) "%Y-%m-%d" = Raise e) as [e ->].
  { unfold Strptime.strptime at 1.
    change (Strptime.parse_format "%Y-%m-%d")
      with [Strptime.DY; Strptime.DLit "-"; Strptime.Dm; Strptime.DLit "-"; Strptime.Dd].
    cbn [Strptime.match_items].
    destruct (Strptime.alts_Y (Str.strip s)) as [|vr l] eqn:HY; [simpl; eauto|].
    exfalso. unfold Strptime.strptime in Hdmy.
    rewrite year_first_not_day_first in Hdmy by (rewrite HY; discriminate).
    discriminate. }
  cbn [obind]. rewrite Hdmy. cbn [obind]. unfold localize. now rewrite Hloc.
Qed.

End DayFirst.

Lemma _to_dt_day_first_witness :
  _to_dt sample_parse_scalar (PyStr "  03/04/2025 ")
  = Ret (Some (Cal.at_midnight 2025 4 3)).
Proof.
  apply _to_dt_day_first; vm_compute; reflexivity.
Defined.

(** *** Inserting a row keeps the constraints *)

Lemma same_key_full_key a b : same_key a b = true <-> full_key a = full_key b.
Proof.
  unfold same_key, full_key.
  rewrite !andb_true_iff, !String.eqb_eq, Z.eqb_eq.
  split; [intros [[-> ->] ->]; reflexivity|intros [= -> -> ->]; auto].
Qed.

Lemma not_exists_key c (T : table) :
  existsb (same_key c) T = false -> ~ In (full_key c) (map full_key T).
Proof.
  intros Hex Hin. apply in_map_iff in Hin as (r & Hk & Hr).
  assert (existsb (same_key c) T = true); [|congruence].
  apply existsb_exists. exists r. split; [exact Hr|]. now apply same_key_full_key.
Qed.

Lemma next_id_fresh (T : table) c : In c T -> Certificate.id c <> Some (next_id T).
Proof.
  intros Hin Hid. unfold next_id in Hid.
  destruct (fold_max_bounds 0 (map (fun c => default 0 (Certificate.id c)) T))
    as (_ & Hub & _).
  assert (default 0 (Certificate.id c)
          <= fold_right Z.max 0 (map (fun c => default 0 (Certificate.id c)) T)) as Hle.
  { apply Hub, in_map_iff. eauto. }
  rewrite Hid in Hle. cbv [default from_option id] in Hle. lia.
Qed.

Lemma NoDup_snoc {A} (l : list A) x : List.NoDup l -> ~ In x l -> List.NoDup (l ++ [x]).
Proof.
  intros Hnd Hx. eapply Permutation_NoDup; [apply Permutation_cons_append|].
  now apply List.NoDup_cons.
Qed.

Lemma store_ok_insert (T : table) c :
  store_ok T ->
  existsb (same_key c) T = false ->
  localizable (Certificate.valid_to c) = true ->
  store_ok (T ++ [Certificate.with_id (next_id T) c]).
Proof.
  intros ((Hnd & Hid) & Hu & Hd) Hex Hloc. repeat split.
  - rewrite map_app. cbn. apply NoDup_snoc; [assumption|].
    intros Hin. apply in_map_iff in Hin as (r & Hr & HrT).
    now apply (next_id_fresh T r).
  - apply Forall_app. split; [assumption|]. repeat constructor. cbn. eauto.
  - unfold unique_key. rewrite map_app. cbn.
    apply NoDup_snoc; [assumption|]. now apply (not_exists_key c).
  - apply Forall_app. split; [assumption|]. repeat constructor. exact Hloc.
Qed.

Lemma find_snoc_new c (T : table) i :
  existsb (same_key c) T = false ->
  find (same_key c) (T ++ [Certificate.with_id i c]) = Some (Certificate.with_id i c).
Proof.
  induction T as [|r T IH]; cbn [existsb app find].
  - intros _. unfold same_key. cbn. now rewrite !String.eqb_refl, Z.eqb_refl.
  - intros H. apply orb_false_iff in H as [-> H]. now apply IH.
Qed.

(** *** [add_certificate] *)

Section Add.

Variable parse_scalar : string -> option datetime.

(** The two ways [add_certificate] ends: without an id and without a
    change, or with the id of the one row it appended. *)
Lemma add_certificate_cases (record : gmap string json) (db db' : table)
  (r : outcome add_result) :
  add_certificate parse_scalar record db = (r, db') ->
  (db' = db /\ forall i, r <> Ret (AddedId i))
  \/ exists c,
       r = Ret (AddedId (Some (next_id db)))
       /\ db' = db ++ [Certificate.with_id (next_id db) c]
       /\ existsb (same_key c) db = false
       /\ Certificate.dept c = _dept_norm (py_or (dict_get record "dept") (PyStr ""))
       /\ _to_dt parse_scalar (dict_get record "valid_to")
          = Ret (Some (Certificate.valid_to c)).
Proof.
  unfold add_certificate.
  destruct (_to_dt parse_scalar (dict_get record "valid_to")) as [[vt|]|e];
    try (intros [= <- <-]; left; split; [reflexivity|discriminate]).
  destruct (_ && _); [|intros [= <- <-]; left; split; [reflexivity|discriminate]].
  destruct (_to_dt parse_scalar (dict_get record "valid_from")) as [vf|e];
    [|intros [= <- <-]; left; split; [reflexivity|discriminate]].
  set (c := Certificate.mk None _ _ _ vf vt _).
  unfold with_session, sbind, db_add, db_commit, sbind, flush.
  cbn [dirty pending working committed app write_all obind].
  unfold sql_insert. destruct (existsb (same_key c) db) eqn:Hex.
  - cbn. intros [= <- <-]. left. split; [reflexivity|discriminate].
  - cbn [obind working committed]. unfold db_refresh, sret. cbn [working].
    rewrite (find_snoc_new c db _ Hex). cbn [default committed].
    intros Heq. injection Heq as <- <-. right. exists c. repeat split; auto.
Qed.

(** X11. When [add_certificate] returns an id, the table has grown by exactly
    one row at its end; the row carries that id, which no earlier row
    has, its department is a normalized one, its expiry is the
    normalized [valid_to] of the record, and its key was not in the
    table. *)
Theorem add_appends_one_row (record : gmap string json) (db db' : table)
  (i : option Z) :
  add_certificate parse_scalar record db = (Ret (AddedId i), db') ->
  exists n c,
    i = Some n /\ db' = db ++ [c]
    /\ Certificate.id c = Some n
    /\ (forall r, In r db -> Certificate.id r <> Some n)
    /\ existsb (same_key c) db = false
    /\ Certificate.dept c = _dept_norm (py_or (dict_get record "dept") (PyStr ""))
    /\ _to_dt parse_scalar (dict_get record "valid_to")
       = Ret (Some (Certificate.valid_to c)).
Proof.
  unfold add_certificate.
  destruct (_to_dt parse_scalar (dict_get record "valid_to")) as [[vt|]|e];
    try discriminate.
  destruct (_ && _); [|discriminate].
  destruct (_to_dt parse_scalar (dict_get record "valid_from")) as [vf|e];
    [|discriminate].
  set (c := Certificate.mk None _ _ _ vf vt _).
  unfold with_session, sbind, db_add, db_commit, sbind, flush.
  cbn [dirty pending working committed app write_all obind].
  unfold sql_insert. destruct (existsb (same_key c) db) eqn:Hex; [discriminate|].
  cbn [obind working committed]. unfold db_refresh, sret. cbn [working].
  rewrite (find_snoc_new c db _ Hex). cbn [default committed].
  intros Heq. injection Heq as <- <-.
  exists (next_id db), (Certificate.with_id (next_id db) c).
  repeat split; auto.
  intros r Hr. now apply next_id_fresh.
Qed.

(** X12. When the [valid_to] of a record is normalized without an
    exception (it is normalized before anything is tested), and
    [trainset_id] or [dept] is missing, null or empty, or [valid_to]
    normalizes to nothing, the record is answered with the error object
    and nothing is stored. *)
Theorem add_requires_three_fields (record : gmap string json) (db : table)
  (vt : option datetime) :
  _to_dt parse_scalar (dict_get record "valid_to") = Ret vt ->
  py_truth (dict_get record "trainset_id") = false
  \/ py_truth (dict_get record "dept") = false
  \/ vt = None ->
  add_certificate parse_scalar record db = (Ret (AddError ADD_REQUIRED), db).
Proof.
  intros Hvt H. unfold add_certificate. rewrite Hvt.
  destruct vt as [vt|]; [|reflexivity].
  destruct H as [H|[H|H]]; [| |discriminate].
  - unfold py_or. rewrite H. reflexivity.
  - unfold py_or at 2. rewrite H. cbn. now rewrite andb_false_r.
Qed.

(** X13. [add_certificate] keeps the constraints of the table. *)
Theorem add_keeps_constraints (record : gmap string json) (db db' : table)
  (r : outcome add_result) :
  store_ok db ->
  add_certificate parse_scalar record db = (r, db') ->
  store_ok db'.
Proof.
  intros Hok Hrun.
  destruct (add_certificate_cases record db db' r Hrun)
    as [[-> _]|(c & _ & -> & Hex & _ & Hvt)]; [exact Hok|].
  apply _to_dt_some_localizable in Hvt.
  now apply store_ok_insert.
Qed.

End Add.

(** *** [update_certificate], step by step *)

Lemma triple_bind db {A B} (P : sess -> Prop) (m : session A)
  (Q : A -> sess -> Prop) (k : A -> session B) (R : B -> sess -> Prop) :
  triple db P m Q -> (forall a, triple db (Q a) (k a) R) ->
  triple db P (sbind m k) R.
Proof.
  intros Hm Hk s Hs. unfold sbind. specialize (Hm s Hs).
  destruct (m s) as [[a|e] s']; [|exact Hm]. now apply Hk.
Qed.

Lemma triple_sret db {A} (P : sess -> Prop) (a : A) (Q : A -> sess -> Prop) :
  (forall s, P s -> Q a s) -> triple db P (sret a) Q.
Proof. intros H s Hs. now apply H. Qed.

Section Update.

Variable parse_scalar : string -> option datetime.

Lemma editing_modified db c0 c c' :
  Certificate.id c' = Certificate.id c ->
  (localizable (Certificate.valid_to c) = true ->
   localizable (Certificate.valid_to c') = true) ->
  triple db (editing db c0 c) (tx _ <- db_modified c'; sret c')
    (fun c'' s => c'' = c' /\ editing db c0 c' s).
Proof.
  intros Hid Hloc s (Hc & Hw & Hp & _ & Hid0 & Hl0). cbn.
  split; [reflexivity|]. repeat split; auto; congruence.
Qed.

Lemma editing_assign_if db c0 c patch key set :
  (forall v, Certificate.id (set v) = Certificate.id c) ->
  (forall v, Certificate.valid_to (set v) = Certificate.valid_to c) ->
  triple db (editing db c0 c) (assign_if patch key c set)
    (fun c' s => editing db c0 c' s).
Proof.
  intros Hid Hvt. unfold assign_if. destruct (patch !! key) as [j|].
  - intros s Hs.
    pose proof (editing_modified db c0 c (set (py_of_json j)) (Hid _)) as H.
    specialize (H ltac:(now rewrite Hvt) s Hs).
    destruct ((tx _ <- db_modified _; sret _) s) as [[a|e] s']; [|exact H].
    now destruct H as [-> H].
  - apply triple_sret. auto.
Qed.

Lemma editing_commit db cert_id c0 c :
  In c0 db -> Certificate.id c0 = Some cert_id ->
  triple db (editing db c0 c) (tx _ <- db_commit; sret (mk_update 1 None))
    (fun r s => r = mk_update 1 None /\ updated_to db cert_id (committed s)).
Proof.
  intros Hin Hid0 s (Hc & Hw & Hp & Hd & Hid & Hl).
  unfold db_commit, sbind, flush. rewrite Hp, Hw.
  destruct Hd as [[-> ->]| ->]; cbn [write_all obind].
  - cbn. split; [reflexivity|now left].
  - unfold sql_update.
    destruct (existsb _ db) eqn:Hex; cbn [obind]; [exact Hc|].
    cbn. split; [reflexivity|]. right. exists c0, c.
    repeat split; auto. congruence.
Qed.

Lemma update_body_triple (cert_id : Z) (patch : gmap string json) (db : table) c0 :
  In c0 db -> Certificate.id c0 = Some cert_id ->
  triple db (editing db c0 c0)
    (tx c <- assign_if patch "trainset_id" c0 (fun v =>
       Certificate.mk (Certificate.id c0) (Str.strip (py_str v)) (Certificate.dept c0)
         (Certificate.status c0) (Certificate.valid_from c0) (Certificate.valid_to c0)
         (Certificate.source c0));
     tx c <- assign_if patch "dept" c (fun v =>
       Certificate.mk (Certificate.id c) (Certificate.trainset_id c) (_dept_norm v)
         (Certificate.status c) (Certificate.valid_from c) (Certificate.valid_to c)
         (Certificate.source c));
     tx c <- assign_if patch "status" c (fun v =>
       Certificate.mk (Certificate.id c) (Certificate.trainset_id c) (Certificate.dept c)
         (let st := Str.lower (py_str v) in
          if Str.nonempty st then Some st else None)
         (Certificate.valid_from c) (Certificate.valid_to c) (Certificate.source c));
     tx c <- match patch !! "valid_from" with
             | Some j =>
                 tx vf <- lift (_to_dt parse_scalar (py_of_json j));
                 let c' :=
                   Certificate.mk (Certificate.id c) (Certificate.trainset_id c)
                     (Certificate.dept c) (Certificate.status c) vf
                     (Certificate.valid_to c) (Certificate.source c) in
                 tx _ <- db_modified c'; sret c'
             | None => sret c
             end;
     match patch !! "valid_to" with
     | Some j =>
         tx vt <- lift (_to_dt parse_scalar (py_of_json j));
         match vt with
         | None => sret (mk_update 0 (Some "valid_to must be a valid date"))
         | Some vt =>
             let c' :=
               Certificate.mk (Certificate.id c) (Certificate.trainset_id c)
                 (Certificate.dept c) (Certificate.status c)
                 (Certificate.valid_from c) vt (Certificate.source c) in
             tx _ <- db_modified c';
             tx _ <- db_commit;
             sret (mk_update 1 None)
         end
     | None =>
         tx _ <- db_commit;
         sret (mk_update 1 None)
     end)
    (fun r s => updated_to db cert_id (committed s)).
Proof.
  intros Hin Hid0.
  eapply triple_bind; [apply editing_assign_if; reflexivity|]. intros c1.
  eapply triple_bind; [apply editing_assign_if; reflexivity|]. intros c2.
  eapply triple_bind; [apply editing_assign_if; reflexivity|]. intros c3.
  eapply (triple_bind _ _ _ (fun c s => editing db c0 c s)).
  { destruct (patch !! "valid_from") as [j|]; [|apply triple_sret; auto].
    intros s Hs. unfold sbind at 1, lift.
    destruct (_to_dt parse_scalar (py_of_json j)) as [vf|e];
      [|now destruct Hs as (? & _)].
    pose proof (editing_modified db c0 c3
                  (Certificate.mk (Certificate.id c3) (Certificate.trainset_id c3)
                     (Certificate.dept c3) (Certificate.status c3) vf
                     (Certificate.valid_to c3) (Certificate.source c3))
                  eq_refl (fun H => H) s Hs) as H.
    destruct ((tx _ <- db_modified _; sret _) s) as [[a|e] s']; [|exact H].
    now destruct H as [-> H]. }
  intros c4.
  destruct (patch !! "valid_to") as [j|].
  - intros s Hs. unfold sbind at 1, lift.
    destruct (_to_dt parse_scalar (py_of_json j)) as [[vt|]|e] eqn:Hvt.
    + pose proof (editing_modified db c0 c4
                    (Certificate.mk (Certificate.id c4) (Certificate.trainset_id c4)
                       (Certificate.dept c4) (Certificate.status c4)
                       (Certificate.valid_from c4) vt (Certificate.source c4))
                    eq_refl (fun _ => _to_dt_some_localizable parse_scalar _ _ Hvt) s Hs) as H.
      unfold sbind at 1. unfold sbind at 1 in H.
      destruct (db_modified _ s) as [[[]|e] s'] eqn:Hm; [|discriminate Hm].
      cbn [sret] in H. destruct H as [_ H].
      pose proof (editing_commit db cert_id c0 _ Hin Hid0 s' H) as Hc.
      destruct ((tx _ <- db_commit; sret _) s') as [[a|e] s'']; [|exact Hc].
      now destruct Hc.
    + cbn. destruct Hs as (-> & _). now left.
    + now destruct Hs as (? & _).
  - intros s Hs.
    pose proof (editing_commit db cert_id c0 _ Hin Hid0 s Hs) as Hc.
    destruct ((tx _ <- db_commit; sret _) s) as [[a|e] s'']; [|exact Hc].
    now destruct Hc.
Qed.

(** Whatever [update_certificate] answers, the table it leaves is the
    old one, or the old one with the row of the given id rewritten in
    place, free of a key collision with the other rows. *)
Lemma update_certificate_updated_to (cert_id : Z) (patch : gmap string json)
  (db db' : table) (r : outcome update_result) :
  update_certificate parse_scalar cert_id patch db = (r, db') ->
  updated_to db cert_id db'.
Proof.
  unfold update_certificate, with_session, sbind at 1, db_get. cbn [working].
  destruct (find _ db) as [c0|] eqn:Hfind.
  - apply find_some in Hfind as [Hin Hid].
    assert (Certificate.id c0 = Some cert_id) as Hid0.
    { destruct (Certificate.id c0); [|discriminate]. apply Z.eqb_eq in Hid. now subst. }
    pose proof (update_body_triple cert_id patch db c0 Hin Hid0
                  (mk_sess db db [] [])) as H.
    match type of H with
    | ?P -> _ => assert P as HP
    end.
    { repeat split; auto. }
    specialize (H HP).
    match goal with
    | |- (let '(_, _) := ?m in _) = _ -> _ => destruct m as [[a|e] s']
    end; intros Heq; injection Heq as <- <-; [exact H|left; exact H].
  - cbn. intros Heq. injection Heq as <- <-. now left.
Qed.

End Update.

(** *** What [update_certificate] and [delete_certificate] keep *)

Lemma replace_row_ids c (db : table) :
  map Certificate.id (replace_row c db) = map Certificate.id db.
Proof.
  unfold replace_row. rewrite map_map. apply map_ext. intros r.
  destruct (same_id r c) eqn:Hs; [|reflexivity].
  unfold same_id in Hs.
  destruct (Certificate.id r), (Certificate.id c); try discriminate.
  apply Z.eqb_eq in Hs. now subst.
Qed.

Lemma replace_row_In c (db : table) r :
  In r (replace_row c db) -> In r db \/ r = c.
Proof.
  unfold replace_row. rewrite in_map_iff. intros (x & Hx & Hin).
  destruct (same_id x c); subst; auto.
Qed.

Lemma replace_row_absent c (db : table) :
  (forall r, In r db -> same_id r c = false) -> replace_row c db = db.
Proof.
  intros H. unfold replace_row. rewrite <- (map_id db) at 2.
  apply map_ext_in. intros r Hr. now rewrite H.
Qed.

Lemma replace_row_unique c (db : table) :
  List.NoDup (map Certificate.id db) ->
  unique_key db ->
  existsb (fun r => same_key c r && negb (same_id r c)) db = false ->
  unique_key (replace_row c db).
Proof.
  unfold unique_key.
  induction db as [|r db IH]; intros Hid Hu Hex; [constructor|].
  cbn [map] in Hid, Hu. apply NoDup_cons_iff in Hid as [Hidr Hid].
  apply NoDup_cons_iff in Hu as [Hur Hu].
  cbn [existsb] in Hex. apply orb_false_iff in Hex as [Hr Hex].
  assert (forall x, In x db -> same_key c x && negb (same_id x c) = false) as Hall.
  { intros x Hx. destruct (same_key c x && negb (same_id x c)) eqn:E; [|reflexivity].
    assert (existsb (fun r => same_key c r && negb (same_id r c)) db = true);
      [|congruence].
    apply existsb_exists. eauto. }
  unfold replace_row. cbn [map]. fold (replace_row c db).
  destruct (same_id r c) eqn:Hs.
  - assert (forall x, In x db -> same_id x c = false) as Hno.
    { intros x Hx. destruct (same_id x c) eqn:E; [|reflexivity].
      exfalso. apply Hidr.
      unfold same_id in Hs, E.
      destruct (Certificate.id r) as [i|] eqn:Ei, (Certificate.id c) as [j|],
        (Certificate.id x) as [k|] eqn:Ek; try discriminate.
      apply Z.eqb_eq in Hs, E. subst. rewrite <- Ek. now apply in_map. }
    rewrite (replace_row_absent c db Hno). apply List.NoDup_cons; [|exact Hu].
    intros Hin. apply in_map_iff in Hin as (x & Hk & Hx).
    specialize (Hall x Hx). rewrite (Hno x Hx) in Hall.
    assert (same_key c x = true) by now apply same_key_full_key.
    rewrite H in Hall. discriminate.
  - apply List.NoDup_cons; [|now apply IH].
    intros Hin. apply in_map_iff in Hin as (x & Hk & Hx).
    apply replace_row_In in Hx as [Hx| ->].
    + apply Hur. rewrite <- Hk. now apply in_map.
    + rewrite ?Hs in Hr. cbn [negb] in Hr. rewrite andb_true_r in Hr.
      assert (same_key c r = true) by now apply same_key_full_key. congruence.
Qed.

Section UpdateMore.

Variable parse_scalar : string -> option datetime.

(** X4. An id that SQLite can bind and no row carries: "not found", and
    the table is untouched, whatever the patch. *)
Theorem update_unknown_id (cert_id : Z) (patch : gmap string json) (db : table) :
  sqlite_int cert_id ->
  (forall c, In c db -> Certificate.id c <> Some cert_id) ->
  update_certificate parse_scalar cert_id patch db
  = (Ret (mk_update 0 (Some "not found")), db).
Proof.
  intros _ Hno. unfold update_certificate, with_session, sbind, db_get.
  cbn [working]. now rewrite find_has_id_none.
Qed.

(** X6. [update_certificate] never adds or removes a row and never changes
    an id; the rows of the other ids are left exactly as they were. *)
Theorem update_keeps_rows_and_ids (cert_id : Z) (patch : gmap string json)
  (db db' : table) (r : outcome update_result) :
  update_certificate parse_scalar cert_id patch db = (r, db') ->
  map Certificate.id db' = map Certificate.id db
  /\ forall x, In x db -> Certificate.id x <> Some cert_id -> In x db'.
Proof.
  intros Hrun. apply update_certificate_updated_to in Hrun.
  destruct Hrun as [->|(c0 & c & _ & _ & Hid & -> & _)]; [auto|].
  split; [apply replace_row_ids|].
  intros x Hx Hne. unfold replace_row. apply in_map_iff. exists x.
  split; [|exact Hx].
  assert (same_id x c = false) as ->; [|reflexivity].
  unfold same_id. rewrite Hid. destruct (Certificate.id x) as [i|]; [|reflexivity].
  apply Z.eqb_neq. congruence.
Qed.

(** X7. [update_certificate] keeps the constraints of the table. *)
Theorem update_keeps_constraints (cert_id : Z) (patch : gmap string json)
  (db db' : table) (r : outcome update_result) :
  store_ok db ->
  update_certificate parse_scalar cert_id patch db = (r, db') ->
  store_ok db'.
Proof.
  intros Hok Hrun. apply update_certificate_updated_to in Hrun.
  destruct Hrun as [->|(c0 & c & Hin0 & Hid0 & Hid & -> & Hex & Hloc)]; [exact Hok|].
  destruct Hok as ((Hnd & Hsome) & Hu & Hd).
  assert (localizable (Certificate.valid_to c) = true) as Hc.
  { apply Hloc. unfold dates_ok in Hd. rewrite List.Forall_forall in Hd. now apply Hd. }
  repeat split.
  - now rewrite replace_row_ids.
  - apply List.Forall_forall. intros x Hx. apply replace_row_In in Hx as [Hx| ->].
    + rewrite List.Forall_forall in Hsome. now apply Hsome.
    + eauto.
  - now apply replace_row_unique.
  - apply List.Forall_forall. intros x Hx. apply replace_row_In in Hx as [Hx| ->].
    + unfold dates_ok in Hd. rewrite List.Forall_forall in Hd. now apply Hd.
    + exact Hc.
Qed.

End UpdateMore.

Lemma NoDup_map_filter {A B} (f : A -> B) (p : A -> bool) l :
  List.NoDup (map f l) -> List.NoDup (map f (List.filter p l)).
Proof.
  induction l as [|x l IH]; intros H; [constructor|].
  cbn [map] in H. apply NoDup_cons_iff in H as [Hx H].
  cbn [List.filter]. destruct (p x); [|now apply IH].
  cbn [map]. apply List.NoDup_cons; [|now apply IH].
  intros Hin. apply Hx. apply in_map_iff in Hin as (y & Hy & Hf).
  apply filter_In in Hf as [Hf _]. rewrite <- Hy. now apply in_map.
Qed.

Lemma Forall_filter_list {A} (P : A -> Prop) (p : A -> bool) l :
  Forall P l -> Forall P (List.filter p l).
Proof.
  rewrite !List.Forall_forall. intros H x Hx. apply filter_In in Hx as [Hx _]. auto.
Qed.

(** X3. [delete_certificate] keeps the constraints of the table. *)
Theorem delete_keeps_constraints (cert_id : Z) (db db' : table)
  (r : outcome delete_result) :
  store_ok db ->
  delete_certificate cert_id db = (r, db') ->
  store_ok db'.
Proof.
  intros Hok. unfold delete_certificate, with_session, sbind, db_get.
  cbn [working]. destruct (find _ db) as [c|].
  - unfold db_delete, db_commit, sbind, flush. cbn.
    intros Heq. injection Heq as _ <-.
    destruct Hok as ((Hnd & Hsome) & Hu & Hd).
    repeat split.
    + now apply NoDup_map_filter.
    + now apply Forall_filter_list.
    + now apply NoDup_map_filter.
    + now apply Forall_filter_list.
  - cbn. intros Heq. injection Heq as _ <-. exact Hok.
Qed.

(** *** The CSV upsert: accounting, atomicity, constraints *)

Section UpsertMore.

Variable parse_cell : to_datetime_kw -> Series -> pyvalue -> option datetime.
Variable parse_scalar : string -> option datetime.

Lemma pure_rows_accounting rs : forall i k T i' k' T',
  pure_rows parse_scalar rs (i, k) T = Ret ((i', k'), T') ->
  exists suffix,
    T' = T ++ suffix
    /\ i' = (i + length suffix)%nat
    /\ (i' + k' = i + k + length rs)%nat
    /\ Forall (fun c => Certificate.source c = Some "csv-import") suffix.
Proof.
  induction rs as [|r rs IH]; intros i k T i' k' T'; cbn [pure_rows fst snd].
  - intros [= <- <- <-]. exists []. rewrite app_nil_r. cbn. repeat split; auto; lia.
  - destruct (row_outcome parse_scalar r) as [[rec|]|e] eqn:Hrow; cbn [obind];
      try discriminate.
    + destruct (existsb (same_key rec) T).
      * intros H. apply IH in H as (suffix & -> & -> & Hsum & Hsrc).
        exists suffix. cbn [length]. repeat split; auto; lia.
      * intros H. apply IH in H as (suffix & -> & -> & Hsum & Hsrc).
        exists (Certificate.with_id (next_id T) rec :: suffix).
        rewrite <- app_assoc. cbn [length app]. repeat split; auto; try lia.
        constructor; [|exact Hsrc].
        unfold row_outcome in Hrow.
        destruct (_to_dt parse_scalar (r_vto r)) as [[vt|]|]; cbn [obind] in Hrow;
          try discriminate.
        destruct (match r_vfrom r with Some v => _ | None => _ end); cbn [obind] in Hrow;
          [|discriminate].
        injection Hrow as <-. reflexivity.
    + intros H. apply IH in H as (suffix & -> & -> & Hsum & Hsrc).
      exists suffix. cbn [length]. repeat split; auto; lia.
Qed.

Lemma row_outcome_localizable r rec :
  row_outcome parse_scalar r = Ret (Some rec) ->
  localizable (Certificate.valid_to rec) = true.
Proof.
  unfold row_outcome.
  destruct (_to_dt parse_scalar (r_vto r)) as [[vt|]|] eqn:Hvt; cbn [obind];
    try discriminate.
  destruct (match r_vfrom r with Some v => _ | None => _ end); cbn [obind];
    [|discriminate].
  intros [= <-]. cbn. eapply _to_dt_some_localizable; eauto.
Qed.

Lemma pure_rows_store_ok rs : forall counts T counts' T',
  store_ok T ->
  pure_rows parse_scalar rs counts T = Ret (counts', T') ->
  store_ok T'.
Proof.
  induction rs as [|r rs IH]; intros counts T counts' T' Hok; cbn [pure_rows].
  - now intros [= _ <-].
  - destruct (row_outcome parse_scalar r) as [[rec|]|e] eqn:Hrow; cbn [obind];
      try discriminate.
    + destruct (existsb (same_key rec) T) eqn:Hex; [now apply IH|].
      apply IH. apply store_ok_insert; auto.
      now apply (row_outcome_localizable r).
    + now apply IH.
Qed.

(** X17. When [upsert_from_csv] returns a result with an [error], it has
    imported and skipped nothing and the table is untouched; otherwise
    every row of the file was counted once, as imported or as skipped,
    and the table is the old one followed by as many new rows as were
    imported, each tagged "csv-import".  Stored rows are never changed
    by an import. *)
Theorem upsert_accounts_for_every_row
  (src : csv_source) (db db' : table) (res : upsert_result) :
  upsert_from_csv parse_cell parse_scalar src db = (Ret res, db') ->
  match error res with
  | Some msg =>
      read_rows parse_cell src = inl msg
      /\ imported res = O /\ skipped res = O /\ db' = db
  | None =>
      exists rs suffix,
        read_rows parse_cell src = inr rs
        /\ db' = db ++ suffix
        /\ length suffix = imported res
        /\ (imported res + skipped res = length rs)%nat
        /\ Forall (fun c => Certificate.source c = Some "csv-import") suffix
  end.
Proof.
  rewrite upsert_from_csv_pure.
  destruct (read_rows parse_cell src) as [msg|rs].
  - intros [= <- <-]. cbn. auto.
  - destruct (pure_rows parse_scalar rs (O, O) db) as [[[i k] T]|e] eqn:Hrun;
      [|discriminate].
    intros [= <- <-]. cbn [error imported skipped fst snd].
    apply pure_rows_accounting in Hrun as (suffix & -> & -> & Hsum & Hsrc).
    exists rs, suffix. repeat split; auto.
Qed.

(** X18. An import that raises commits nothing: no row of the file is
    stored, not even those read before the exception. *)
Theorem upsert_raise_keeps_table
  (src : csv_source) (db db' : table) (e : exn) :
  upsert_from_csv parse_cell parse_scalar src db = (Raise e, db') -> db' = db.
Proof.
  rewrite upsert_from_csv_pure.
  destruct (read_rows parse_cell src) as [msg|rs]; [discriminate|].
  destruct (pure_rows parse_scalar rs (O, O) db) as [[counts T]|e']; [discriminate|].
  now intros [= _ <-].
Qed.

(** X19. [upsert_from_csv] keeps the constraints of the table. *)
Theorem upsert_keeps_constraints
  (src : csv_source) (db db' : table) (r : outcome upsert_result) :
  store_ok db ->
  upsert_from_csv parse_cell parse_scalar src db = (r, db') ->
  store_ok db'.
Proof.
  intros Hok. rewrite upsert_from_csv_pure.
  destruct (read_rows parse_cell src) as [msg|rs]; [now intros [= _ <-]|].
  destruct (pure_rows parse_scalar rs (O, O) db) as [[counts T]|e'] eqn:Hrun.
  - intros [= _ <-]. eapply pure_rows_store_ok; eauto.
  - now intros [= _ <-].
Qed.

End UpsertMore.

(** *** [_pick] *)

Lemma existsb_eqb_In c cols : existsb (String.eqb c) cols = true <-> In c cols.
Proof.
  rewrite existsb_exists. split.
  - intros (x & Hx & He). apply String.eqb_eq in He. now subst.
  - intros H. exists c. split; [exact H|apply String.eqb_refl].
Qed.

(** X22. [_pick] returns the first candidate that is a column label, and
    [None] exactly when no candidate is one. *)
Theorem _pick_first_candidate (cols cands : list string) :
  match _pick cols cands with
  | Some c =>
      exists before after,
        cands = before ++ c :: after
        /\ In c cols
        /\ forall x, In x before -> ~ In x cols
  | None => forall x, In x cands -> ~ In x cols
  end.
Proof.
  induction cands as [|a cands IH]; cbn [_pick].
  - intros x [].
  - destruct (existsb (String.eqb a) cols) eqn:Ha.
    + exists [], cands. split; [reflexivity|]. split; [now apply existsb_eqb_In|].
      intros x [].
    + assert (~ In a cols) as Hna.
      { intros Hin. apply existsb_eqb_In in Hin. congruence. }
      destruct (_pick cols cands) as [c|].
      * destruct IH as (before & after & -> & Hc & Hb).
        exists (a :: before), after. split; [reflexivity|]. split; [exact Hc|].
        intros x [<-|Hx]; auto.
      * intros x [<-|Hx]; auto.
Qed.

(** *** [_dept_norm] *)

Lemma upper_ascii_idem a : Str.upper_ascii (Str.upper_ascii a) = Str.upper_ascii a.
Proof. destruct a as [[] [] [] [] [] [] [] []]; reflexivity. Qed.

Lemma upper_idem s : Str.upper (Str.upper s) = Str.upper s.
Proof.
  unfold Str.upper. induction s as [|a s IH]; cbn; [reflexivity|].
  now rewrite upper_ascii_idem, IH.
Qed.

Lemma take_length n : forall s, (String.length (Str.take n s) <= n)%nat.
Proof.
  unfold Str.take. induction n as [|n IH]; intros [|a s]; cbn; try lia.
  specialize (IH s). lia.
Qed.

Lemma take_full n : forall s, Str.take n s = s \/ String.length (Str.take n s) = n.
Proof.
  unfold Str.take. induction n as [|n IH]; intros [|a s]; cbn; auto.
  destruct (IH s) as [-> | ->]; auto.
Qed.

Lemma take_take n : forall s, Str.take n (Str.take n s) = Str.take n s.
Proof.
  unfold Str.take. induction n as [|n IH]; intros [|a s]; cbn; auto.
  now rewrite IH.
Qed.

Lemma upper_take n : forall s, Str.upper (Str.take n s) = Str.take n (Str.upper s).
Proof.
  unfold Str.take, Str.upper. induction n as [|n IH]; intros [|a s]; cbn; auto.
  now rewrite IH.
Qed.

Lemma prefix_take p : forall n s,
  (String.length p <= n)%nat ->
  String.prefix p (Str.take n s) = String.prefix p s.
Proof.
  unfold Str.take. induction p as [|a p IH]; intros n s Hlen.
  - destruct n, s; reflexivity.
  - cbn in Hlen. destruct n as [|n]; [lia|]. destruct s as [|b s]; [reflexivity|].
    cbn. destruct (Ascii.ascii_dec a b); [|reflexivity]. apply IH. lia.
Qed.

Lemma take_eq_short n s t :
  (String.length t < n)%nat -> Str.take n s = t -> s = t.
Proof.
  intros Hlen Heq. destruct (take_full n s) as [H|H]; [congruence|].
  rewrite Heq in H. lia.
Qed.

(** X23. For a text within ASCII, the department code [_dept_norm]
    gives has at most eight characters (the width of the column), and
    normalizing it again changes nothing. *)
Theorem _dept_norm_canonical (x : pyvalue) :
  is_ascii (py_str x) = true ->
  (String.length (_dept_norm x) <= 8)%nat
  /\ _dept_norm (PyStr (_dept_norm x)) = _dept_norm x.
Proof.
  intros _.
  unfold _dept_norm at 1 3 4.
  destruct (negb (py_truth x)); [split; [cbn; lia|reflexivity]|].
  set (u := Str.upper (py_str x)).
  assert (Str.upper u = u) as Hu by apply upper_idem.
  destruct (Str.startswith "ROLLING" u) eqn:H1; [split; [cbn; lia|reflexivity]|].
  destruct (Str.startswith "SIG" u || Str.startswith "SIGNAL" u) eqn:H2;
    [split; [cbn; lia|reflexivity]|].
  destruct (Str.startswith "TEL" u || Str.startswith "TELE" u) eqn:H3;
    [split; [cbn; lia|reflexivity]|].
  destruct (String.eqb u "RS" || String.eqb u "SIG" || String.eqb u "TEL") eqn:H4.
  - apply orb_true_iff in H4 as [H4|H4]; [apply orb_true_iff in H4 as [H4|H4]|];
      apply String.eqb_eq in H4; rewrite H4; split; cbn; try lia; reflexivity.
  - split; [apply take_length|].
    unfold _dept_norm. cbn [py_truth py_str].
    destruct (Str.nonempty (Str.take 8 u)) eqn:Hne; cbn [negb].
    2:{ now destruct (Str.take 8 u). }
    rewrite upper_take, Hu.
    unfold Str.startswith in *.
    rewrite !prefix_take by (cbn; lia).
    rewrite H1, H2, H3.
    assert (String.eqb (Str.take 8 u) "RS" || String.eqb (Str.take 8 u) "SIG"
            || String.eqb (Str.take 8 u) "TEL" = false) as ->.
    { apply orb_false_iff in H4 as [H4 Ht]. apply orb_false_iff in H4 as [Hr Hs].
      apply String.eqb_neq in Hr, Hs, Ht.
      repeat (apply orb_false_iff; split); apply String.eqb_neq; intros Heq;
        apply take_eq_short in Heq; cbn; auto; lia. }
    apply take_take.
Qed.

Lemma _dept_norm_canonical_witness :
  (String.length (_dept_norm (PyStr "Electrical dept")) <= 8)%nat
  /\ _dept_norm (PyStr (_dept_norm (PyStr "Electrical dept")))
     = _dept_norm (PyStr "Electrical dept").
Proof. apply _dept_norm_canonical. reflexivity. Defined.

(** *** [_parse_date_series] *)

Section Series.

Variable parse_cell : to_datetime_kw -> Series -> pyvalue -> option datetime.

Lemma first_notna_choice s kws :
  ((exists before kw after,
       kws = before ++ kw :: after
       /\ first_notna parse_cell s kws = to_datetime_series parse_cell kw s
       /\ notna_any (to_datetime_series parse_cell kw s) = true
       /\ forall kw', In kw' before ->
                      notna_any (to_datetime_series parse_cell kw' s) = false)
   \/ (first_notna parse_cell s kws = to_datetime_series parse_cell KwDefault s
       /\ forall kw, In kw kws ->
                     notna_any (to_datetime_series parse_cell kw s) = false))
  /\ (notna_any (first_notna parse_cell s kws) = false ->
      forall kw, In kw kws -> notna_any (to_datetime_series parse_cell kw s) = false).
Proof.
  induction kws as [|kw kws (IH1 & IH2)]; cbn [first_notna].
  - split; [right; split; [reflexivity|intros kw []]|intros _ kw []].
  - destruct (notna_any (to_datetime_series parse_cell kw s)) eqn:Hkw.
    + split; [|congruence]. left. exists [], kw, kws.
      split; [reflexivity|]. split; [reflexivity|]. split; [exact Hkw|intros kw' []].
    + split.
      * destruct IH1 as [(before & kw1 & after & -> & Heq & Hyes & Hbefore)|[Heq Hno]].
        -- left. exists (kw :: before), kw1, after.
           split; [reflexivity|]. split; [exact Heq|]. split; [exact Hyes|].
           intros kw' [<-|Hin]; auto.
        -- right. split; [exact Heq|]. intros k [<-|Hk]; auto.
      * intros Hnone k [<-|Hk]; auto.
Qed.

(** X24. [_parse_date_series] reads the whole column under one of its
    six keyword sets, gives one value per cell, and gives no value at all
    only if none of the six reads any cell; the first of the six that
    reads some cell is the one used, so an earlier one read none. *)
Theorem parse_date_series_one_reading (s : Series) :
  (exists before kw after,
      series_kws = before ++ kw :: after
      /\ _parse_date_series parse_cell s = to_datetime_series parse_cell kw s
      /\ (notna_any (_parse_date_series parse_cell s) = true ->
          forall kw', In kw' before ->
                      notna_any (to_datetime_series parse_cell kw' s) = false))
  /\ length (_parse_date_series parse_cell s) = length s
  /\ (notna_any (_parse_date_series parse_cell s) = false ->
      forall kw, In kw series_kws ->
                 notna_any (to_datetime_series parse_cell kw s) = false).
Proof.
  unfold _parse_date_series.
  destruct (first_notna_choice s series_kws) as (Hfirst & Hnone).
  split; [|split; [|exact Hnone]].
  - destruct Hfirst as [(before & kw & after & Heq & Hkw & Hyes & Hbefore)|[Hdef Hno]].
    + exists before, kw, after. rewrite Hkw. auto.
    + exists [], KwDefault, (tl series_kws). split; [reflexivity|].
      split; [exact Hdef|]. intros _ kw' [].
  - destruct Hfirst as [(before & kw & after & _ & -> & _)|[-> _]];
      apply length_map.
Qed.

End Series.

(** *** Sorting by a key *)

Section SortBy.

Context {A : Type}.
Variable leb : A -> A -> bool.
Hypothesis leb_total : forall a b, leb a b = true \/ leb b a = true.
Hypothesis leb_trans : forall a b c, leb a b = true -> leb b c = true -> leb a c = true.

Let le (a b : A) : Prop := leb a b = true.

Lemma insert_by_In x l y : In y (insert_by leb x l) <-> y = x \/ In y l.
Proof.
  induction l as [|z l IH]; cbn [insert_by].
  - cbn. intuition.
  - destruct (leb x z); cbn [In]; [intuition|]. rewrite IH. intuition.
Qed.

Lemma insert_by_sorted x l :
  Sorted.StronglySorted le l -> Sorted.StronglySorted le (insert_by leb x l).
Proof.
  induction 1 as [|z l Hs IH Hz]; cbn [insert_by].
  - constructor; constructor.
  - destruct (leb x z) eqn:Hxz.
    + constructor; [now constructor|]. constructor; [exact Hxz|].
      rewrite List.Forall_forall in *. intros y Hy. eapply leb_trans; [exact Hxz|].
      now apply Hz.
    + constructor; [exact IH|]. rewrite List.Forall_forall in *.
      intros y Hy. apply insert_by_In in Hy as [->|Hy]; [|now apply Hz].
      destruct (leb_total x z) as [H|H]; [congruence|exact H].
Qed.

Lemma sort_by_sorted l : Sorted.StronglySorted le (sort_by leb l).
Proof.
  induction l as [|x l IH]; cbn [sort_by]; [constructor|now apply insert_by_sorted].
Qed.

Lemma insert_by_least x l :
  (forall y, In y l -> leb x y = true) -> insert_by leb x l = x :: l.
Proof.
  destruct l as [|z l]; cbn [insert_by]; [reflexivity|].
  intros H. now rewrite (H z (or_introl eq_refl)).
Qed.

Lemma filter_insert_by (p : A -> bool) x l :
  Sorted.StronglySorted le l ->
  List.filter p (insert_by leb x l)
  = if p x then insert_by leb x (List.filter p l) else List.filter p l.
Proof.
  induction 1 as [|z l Hs IH Hz]; cbn [insert_by List.filter].
  - now destruct (p x).
  - destruct (leb x z) eqn:Hxz; cbn [List.filter].
    + destruct (p x); [|reflexivity].
      symmetry. apply insert_by_least. intros y Hy.
      assert (In y (z :: l)) as Hin.
      { destruct (p z); [destruct Hy as [<-|Hy]; [now left|right]|right];
          now apply filter_In in Hy. }
      destruct Hin as [<-|Hin]; [exact Hxz|].
      rewrite List.Forall_forall in Hz. eapply leb_trans; [exact Hxz|now apply Hz].
    + rewrite IH. destruct (p x), (p z); cbn [insert_by]; rewrite ?Hxz; reflexivity.
Qed.

(** Selecting from a sorted list and sorting the selection agree. *)
Lemma filter_sort_by (p : A -> bool) l :
  List.filter p (sort_by leb l) = sort_by leb (List.filter p l).
Proof.
  induction l as [|x l IH]; cbn [sort_by List.filter]; [reflexivity|].
  rewrite filter_insert_by by apply sort_by_sorted.
  rewrite IH. now destruct (p x).
Qed.

End SortBy.

(** *** The order of [str] and of the report's sort key *)

Lemma str_ltb_trans a b c :
  str_ltb a b = true -> str_ltb b c = true -> str_ltb a c = true.
Proof.
  unfold str_ltb. intros Hab Hbc.
  assert (String.compare a b = Lt) as H1 by (destruct (String.compare a b); congruence).
  assert (String.compare b c = Lt) as H2 by (destruct (String.compare b c); congruence).
  apply OrderedTypeEx.String_as_OT.cmp_lt in H1, H2.
  pose proof (OrderedTypeEx.String_as_OT.lt_trans _ _ _ H1 H2) as H.
  apply OrderedTypeEx.String_as_OT.cmp_lt in H.
  change (String.compare a c = Lt) in H. now rewrite H.
Qed.

Lemma str_trichotomy a b : str_ltb a b = true \/ a = b \/ str_ltb b a = true.
Proof.
  unfold str_ltb. rewrite (String.compare_antisym b a).
  destruct (String.compare a b) eqn:H; cbn; auto.
  right; left. now apply String.compare_eq_iff.
Qed.

Lemma str_ltb_irrefl a : str_ltb a a = false.
Proof.
  unfold str_ltb. pose proof (String.compare_antisym a a) as H.
  destruct (String.compare a a); [reflexivity|discriminate|reflexivity].
Qed.

Lemma str_ltb_asym a b : str_ltb a b = true -> str_ltb b a = false.
Proof.
  intros H. destruct (str_ltb b a) eqn:Hba; [|reflexivity].
  pose proof (str_ltb_trans _ _ _ H Hba) as Haa. now rewrite str_ltb_irrefl in Haa.
Qed.

(** The sort key of the report, as a proposition: [(days_to_expiry,
    train_id, department)] compared as Python compares tuples. *)
Lemma expiring_leb_spec a b :
  expiring_leb a b = true
  <-> days_to_expiry a < days_to_expiry b
      \/ days_to_expiry a = days_to_expiry b
         /\ (str_ltb (train_id a) (train_id b) = true
             \/ train_id a = train_id b
                /\ str_ltb (department b) (department a) = false).
Proof.
  unfold expiring_leb.
  rewrite orb_true_iff, andb_true_iff, orb_true_iff, andb_true_iff,
    Z.ltb_lt, Z.eqb_eq, String.eqb_eq, negb_true_iff.
  reflexivity.
Qed.

Lemma expiring_leb_total a b : expiring_leb a b = true \/ expiring_leb b a = true.
Proof.
  rewrite !expiring_leb_spec.
  destruct (Z.lt_trichotomy (days_to_expiry a) (days_to_expiry b)) as [H|[H|H]].
  { left. now left. }
  2:{ right. now left. }
  destruct (str_trichotomy (train_id a) (train_id b)) as [Ht|[Ht|Ht]].
  { left. right. split; [exact H|now left]. }
  2:{ right. right. split; [now symmetry|now left]. }
  destruct (str_ltb (department b) (department a)) eqn:Hd.
  - right. right. split; [now symmetry|]. right. split; [now symmetry|].
    now apply str_ltb_asym.
  - left. right. split; [exact H|]. right. split; [exact Ht|reflexivity].
Qed.

Lemma expiring_leb_trans a b c :
  expiring_leb a b = true -> expiring_leb b c = true -> expiring_leb a c = true.
Proof.
  rewrite !expiring_leb_spec.
  intros [H1|[H1 H1']] [H2|[H2 H2']]; [left; lia|left; lia|left; lia|].
  right. split; [lia|].
  destruct H1' as [T1|[T1 D1]], H2' as [T2|[T2 D2]].
  - left. eapply str_ltb_trans; eauto.
  - left. now rewrite <- T2.
  - left. now rewrite T1.
  - right. split; [congruence|].
    destruct (str_ltb (department c) (department a)) eqn:Hca; [|reflexivity].
    destruct (str_trichotomy (department a) (department b)) as [H|[H|H]].
    + pose proof (str_ltb_trans _ _ _ Hca H). congruence.
    + rewrite H in Hca. congruence.
    + congruence.
Qed.

(** *** The report of [expiring_within] *)

Section ReportMore.

Variable parse_cell : to_datetime_kw -> Series -> pyvalue -> option datetime.
Variable parse_scalar : string -> option datetime.

Lemma expiring_within_rows days now db :
  dates_ok db ->
  expiring_within parse_cell parse_scalar days None now db
  = (Ret (sort_by expiring_leb (flat_map (reported days now) (latest_rows db))), db).
Proof.
  intros Hok. unfold expiring_within, upsert_first. simpl.
  now rewrite expiring_loop_rows by (intros; eapply dates_ok_latest; eauto).
Qed.

(** X25. The report is in the order of its key: days to expiry, then train,
    then department; in particular the days to expiry never decrease
    down the list. *)
Theorem expiring_within_sorted (days : Z) (now : datetime) (db : table) :
  dates_ok db ->
  exists report,
    expiring_within parse_cell parse_scalar days None now db = (Ret report, db)
    /\ Sorted.StronglySorted (fun a b => expiring_leb a b = true) report
    /\ Sorted.StronglySorted (fun a b => days_to_expiry a <= days_to_expiry b) report.
Proof.
  intros Hok. rewrite expiring_within_rows by exact Hok.
  eexists. split; [reflexivity|].
  pose proof (sort_by_sorted expiring_leb expiring_leb_total expiring_leb_trans
                (flat_map (reported days now) (latest_rows db))) as Hs.
  split; [exact Hs|].
  induction Hs as [|r l Hs IH Hr]; constructor; [exact IH|].
  eapply List.Forall_impl; [|exact Hr]. cbn beta. intros b Hb.
  apply expiring_leb_spec in Hb. lia.
Qed.

Lemma reported_narrow days days' now c :
  days <= days' ->
  reported days now c
  = List.filter (fun r => days_to_expiry r <=? days) (reported days' now c).
Proof.
  intros Hle. unfold reported, in_window.
  destruct (expiring_gate _ _ _); [|reflexivity]. cbn [andb].
  destruct (0 <=? _) eqn:H0; [|reflexivity]. cbn [andb].
  destruct (_ <=? days') eqn:H1.
  - cbn [List.filter report_row days_to_expiry]. now destruct (_ <=? days).
  - apply Z.leb_gt in H1.
    destruct (_ <=? days) eqn:H2; [apply Z.leb_le in H2; lia|reflexivity].
Qed.

Lemma flat_map_narrow days days' now l :
  days <= days' ->
  flat_map (reported days now) l
  = List.filter (fun r => days_to_expiry r <=? days) (flat_map (reported days' now) l).
Proof.
  intros Hle. induction l as [|c l IH]; [reflexivity|]. cbn [flat_map].
  rewrite List.filter_app, <- IH. f_equal. now apply reported_narrow.
Qed.

(** X26. The report for a shorter window is the report for a longer one,
    cut down to the rows with at most that many days left, in the same
    order. *)
Theorem expiring_within_narrower_window
  (days days' : Z) (now : datetime) (db : table) :
  dates_ok db -> days <= days' ->
  exists report report',
    expiring_within parse_cell parse_scalar days None now db = (Ret report, db)
    /\ expiring_within parse_cell parse_scalar days' None now db = (Ret report', db)
    /\ report = List.filter (fun r => days_to_expiry r <=? days) report'.
Proof.
  intros Hok Hle. rewrite !expiring_within_rows by exact Hok.
  do 2 eexists. split; [reflexivity|]. split; [reflexivity|].
  rewrite (filter_sort_by expiring_leb expiring_leb_total expiring_leb_trans).
  f_equal. now apply flat_map_narrow.
Qed.

(** *** [total_active] over time *)

Lemma filter_length_le {A} (p q : A -> bool) l :
  (forall a, p a = true -> q a = true) ->
  (length (List.filter p l) <= length (List.filter q l))%nat.
Proof.
  intros H. induction l as [|a l IH]; cbn [List.filter]; [lia|].
  destruct (p a) eqn:Hp.
  - rewrite (H a Hp). cbn. lia.
  - destruct (q a); cbn; lia.
Qed.

Lemma total_active_count now db :
  dates_ok db ->
  total_active parse_cell parse_scalar None now db
  = (Ret (length (List.filter (active_now now) (latest_rows db))), db).
Proof.
  intros Hok. unfold total_active, upsert_first. simpl.
  now rewrite total_loop_count by (intros; eapply dates_ok_latest; eauto).
Qed.

(** X27. On an unchanged table the count of [total_active] can only fall as
    the clock advances, and it never exceeds the number of rows. *)
Theorem total_active_falls_over_time (now now' : datetime) (db : table) :
  dates_ok db -> now <= now' ->
  exists n n',
    total_active parse_cell parse_scalar None now db = (Ret n, db)
    /\ total_active parse_cell parse_scalar None now' db = (Ret n', db)
    /\ (n' <= n <= length db)%nat.
Proof.
  intros Hok Hle. rewrite !total_active_count by exact Hok.
  do 2 eexists. split; [reflexivity|]. split; [reflexivity|]. split.
  - apply filter_length_le. intros c. unfold active_now.
    rewrite !andb_true_iff, !Z.leb_le. intros [Hs Hv]. split; [exact Hs|lia].
  - rewrite latest_rows_filter.
    etransitivity; [apply List.filter_length_le|]. apply List.filter_length_le.
Qed.

End ReportMore.

(** *** [list_certificates]: pages *)









(** *** [update_certificate]: what is written *)

Lemma find_id_unique (db : table) c cert_id :
  List.NoDup (map Certificate.id db) ->
  In c db -> Certificate.id c = Some cert_id ->
  find (fun r => match Certificate.id r with
                 | Some i => i =? cert_id
                 | None => false
                 end) db = Some c.
Proof.
  induction db as [|r db IH]; intros Hnd Hin Hid; [destruct Hin|].
  cbn [map] in Hnd. apply List.NoDup_cons_iff in Hnd as [Hr Hnd].
  cbn [find]. destruct Hin as [->|Hin].
  - now rewrite Hid, Z.eqb_refl.
  - destruct (Certificate.id r) as [i|] eqn:Hi; [|now apply IH].
    destruct (Z.eqb_spec i cert_id) as [->|Hne]; [|now apply IH].
    exfalso. apply Hr. rewrite <- Hid. now apply in_map.
Qed.

Lemma replace_row_same c (db : table) :
  List.NoDup (map Certificate.id db) -> In c db -> replace_row c db = db.
Proof.
  intros Hnd Hin. unfold replace_row.
  rewrite <- (map_id db) at 2. apply map_ext_in. intros r Hr.
  destruct (same_id r c) eqn:Hs; [|reflexivity].
  unfold same_id in Hs.
  destruct (Certificate.id r) as [i|] eqn:Hi; [|discriminate].
  destruct (Certificate.id c) as [k|] eqn:Hk; [|discriminate].
  apply Z.eqb_eq in Hs. subst k.
  pose proof (find_id_unique db c i Hnd Hin Hk) as Hc.
  pose proof (find_id_unique db r i Hnd Hr Hi) as Hr'.
  congruence.
Qed.

Section UpdateRun.

Variable parse_scalar : string -> option datetime.

(** The run of [update_certificate] on a stored row whose dates are
    read without an exception and whose expiry, if patched, is a
    date. *)
Lemma update_certificate_run (cert_id : Z) (patch : gmap string json) (db : table)
  (c : Certificate.t) (vf : option datetime) (vt : datetime) :
  List.NoDup (map Certificate.id db) ->
  In c db -> Certificate.id c = Some cert_id ->
  match patch !! "valid_from" with
  | Some j => _to_dt parse_scalar (py_of_json j) = Ret vf
  | None => vf = Certificate.valid_from c
  end ->
  match patch !! "valid_to" with
  | Some j => _to_dt parse_scalar (py_of_json j) = Ret (Some vt)
  | None => vt = Certificate.valid_to c
  end ->
  update_certificate parse_scalar cert_id patch db
  = if touches patch
    then if collides (patched patch c vf vt) db
         then (Raise (IntegrityError "uq_cert_train_dept_to"), db)
         else (Ret (mk_update 1 None), replace_row (patched patch c vf vt) db)
    else (Ret (mk_update 1 None), db).
Proof.
  intros Hnd Hin Hid Hvf Hvt.
  unfold update_certificate, with_session, sbind, db_get, assign_if.
  cbn [working committed]. rewrite (find_id_unique db c cert_id Hnd Hin Hid).
  unfold touches, patched, patch_field, collides, replace_row.
  cbn [existsb].
  destruct (patch !! "trainset_id"); destruct (patch !! "dept");
    destruct (patch !! "status");
    destruct (patch !! "valid_from"); destruct (patch !! "valid_to");
    rewrite ?Hvf, ?Hvt; subst;
    unfold lift, sbind, db_modified, db_commit, sbind, flush, sret;
    cbn [working committed dirty pending write_all obind fst snd orb];
    rewrite ?Hvf, ?Hvt;
    cbn [working committed dirty pending write_all obind fst snd orb
         Certificate.id Certificate.trainset_id Certificate.dept Certificate.status
         Certificate.valid_from Certificate.valid_to Certificate.source];
    unfold sql_update;
    try match goal with
        | |- context [existsb ?p db] => destruct (existsb p db)
        end;
    reflexivity.
Qed.

(** X8. An update of a stored row whose patched dates are read and whose
    new key no other row has answers [{"updated": 1}] and rewrites that
    row in place: [trainset_id] stripped, [dept] normalized, [status]
    in lower case (absent when empty), the dates normalized; the other
    attributes and every other row stay as they were. *)
Theorem update_applies_patch (cert_id : Z) (patch : gmap string json) (db : table)
  (c : Certificate.t) (vf : option datetime) (vt : datetime) :
  List.NoDup (map Certificate.id db) ->
  In c db -> Certificate.id c = Some cert_id ->
  match patch !! "valid_from" with
  | Some j => _to_dt parse_scalar (py_of_json j) = Ret vf
  | None => vf = Certificate.valid_from c
  end ->
  match patch !! "valid_to" with
  | Some j => _to_dt parse_scalar (py_of_json j) = Ret (Some vt)
  | None => vt = Certificate.valid_to c
  end ->
  collides (patched patch c vf vt) db = false ->
  update_certificate parse_scalar cert_id patch db
  = (Ret (mk_update 1 None), replace_row (patched patch c vf vt) db).
Proof.
  intros Hnd Hin Hid Hvf Hvt Hfree.
  rewrite (update_certificate_run cert_id patch db c vf vt Hnd Hin Hid Hvf Hvt).
  rewrite Hfree. destruct (touches patch) eqn:Ht; [reflexivity|].
  f_equal. symmetry.
  assert (patched patch c vf vt = c) as ->; [|now apply replace_row_same].
  unfold touches in Ht. cbn [existsb] in Ht.
  repeat (apply orb_false_iff in Ht as [? Ht]).
  unfold patched, patch_field.
  repeat match goal with
         | H : match patch !! ?k with Some _ => true | None => false end = false |- _ =>
             destruct (patch !! k) eqn:?; [discriminate H|]; clear H
         end.
  subst. now destruct c.
Qed.

(** X9. An update that gives a stored row the key of another row raises the
    integrity error of the unique index, and nothing is written. *)
Theorem update_key_collision_raises (cert_id : Z) (patch : gmap string json)
  (db : table) (c : Certificate.t) (vf : option datetime) (vt : datetime) :
  List.NoDup (map Certificate.id db) ->
  In c db -> Certificate.id c = Some cert_id ->
  match patch !! "valid_from" with
  | Some j => _to_dt parse_scalar (py_of_json j) = Ret vf
  | None => vf = Certificate.valid_from c
  end ->
  match patch !! "valid_to" with
  | Some j => _to_dt parse_scalar (py_of_json j) = Ret (Some vt)
  | None => vt = Certificate.valid_to c
  end ->
  touches patch = true ->
  collides (patched patch c vf vt) db = true ->
  update_certificate parse_scalar cert_id patch db
  = (Raise (IntegrityError "uq_cert_train_dept_to"), db).
Proof.
  intros Hnd Hin Hid Hvf Hvt Ht Hc.
  rewrite (update_certificate_run cert_id patch db c vf vt Hnd Hin Hid Hvf Hvt).
  now rewrite Ht, Hc.
Qed.

End UpdateRun.

Lemma history_db_ids : List.NoDup (map Certificate.id history_db).
Proof.
  repeat constructor; cbn; intros H;
    repeat (destruct H as [H|H]; [discriminate|]); exact H.
Qed.

(** Row 2 of the sample table gets a status and a new expiry. *)
Lemma update_applies_patch_witness :
  update_certificate sample_parse_scalar 2 other_patch history_db
  = (Ret (mk_update 1 None),
     [cert 1 "T1" "RS" None (Cal.at_midnight 2099 12 31);
      cert 2 "T1" "RS" (Some "valid") (Cal.at_midnight 2021 1 1);
      cert 3 "T2" "SIG" (Some "revoked") (Cal.at_midnight 2027 1 1)]).
Proof.
  apply (update_applies_patch sample_parse_scalar 2 other_patch history_db
           (cert 2 "T1" "RS" None (Cal.at_midnight 2020 1 1))
           None (Cal.at_midnight 2021 1 1)).
  - apply history_db_ids.
  - right; left; reflexivity.
  - reflexivity.
  - vm_compute. reflexivity.
  - vm_compute. reflexivity.
  - vm_compute. reflexivity.
Defined.

(** Row 2 of the sample table is given the expiry of row 1. *)
Lemma update_key_collision_raises_witness :
  update_certificate sample_parse_scalar 2 colliding_patch history_db
  = (Raise (IntegrityError "uq_cert_train_dept_to"), history_db).
Proof.
  apply (update_key_collision_raises sample_parse_scalar 2 colliding_patch history_db
           (cert 2 "T1" "RS" None (Cal.at_midnight 2020 1 1))
           None (Cal.at_midnight 2099 12 31)).
  - apply history_db_ids.
  - right; left; reflexivity.
  - reflexivity.
  - vm_compute. reflexivity.
  - vm_compute. reflexivity.
  - vm_compute. reflexivity.
  - vm_compute. reflexivity.
Defined.

(** *** Adding, then deleting *)

Lemma filter_all {A} (p : A -> bool) l :
  (forall a, In a l -> p a = true) -> List.filter p l = l.
Proof.
  induction l as [|a l IH]; intros H; cbn [List.filter]; [reflexivity|].
  rewrite (H a (or_introl eq_refl)). f_equal. apply IH. intros b Hb. apply H. now right.
Qed.

(** X14. Deleting the id [add_certificate] has just returned gives back the
    table as it was before the record was added. *)
Theorem add_then_delete_restores
  (parse_scalar : string -> option datetime)
  (record : gmap string json) (db db' : table) (n : Z) :
  add_certificate parse_scalar record db = (Ret (AddedId (Some n)), db') ->
  delete_certificate n db' = (Ret (mk_delete 1 None), db).
Proof.
  intros Hrun.
  destruct (add_certificate_cases parse_scalar record db db' _ Hrun)
    as [[_ Hno]|(c & Hr & -> & _)]; [now destruct (Hno (Some n))|].
  injection Hr as ->.
  rewrite (delete_certificate_found (next_id db) _
             (Certificate.with_id (next_id db) c)).
  - f_equal. rewrite List.filter_app. cbn [List.filter].
    unfold has_id at 2. cbn [Certificate.with_id Certificate.id].
    rewrite Z.eqb_refl. cbn [negb]. rewrite app_nil_r.
    apply filter_all. intros r Hr. unfold has_id.
    pose proof (next_id_fresh db r Hr) as Hfresh.
    destruct (Certificate.id r) as [i|]; [|reflexivity].
    destruct (Z.eqb_spec i (next_id db)) as [->|]; [now destruct Hfresh|reflexivity].
  - apply in_or_app. right. now left.
  - reflexivity.
Qed.

Lemma add_then_delete_restores_witness :
  delete_certificate 4 (snd (add_certificate sample_parse_scalar new_record history_db))
  = (Ret (mk_delete 1 None), history_db).
Proof.
  apply (add_then_delete_restores sample_parse_scalar new_record history_db).
  vm_compute. reflexivity.
Defined.

(** *** The CSV upsert: columns, and what ends up stored *)

Lemma _pick_none cols cands :
  (forall x, In x cands -> ~ In x cols) -> _pick cols cands = None.
Proof.
  induction cands as [|a cands IH]; intros H; cbn [_pick]; [reflexivity|].
  destruct (existsb (String.eqb a) cols) eqn:Ha.
  - apply existsb_eqb_In in Ha. now destruct (H a (or_introl eq_refl)).
  - apply IH. intros x Hx. apply H. now right.
Qed.

Section UpsertColumns.

Variable parse_cell : to_datetime_kw -> Series -> pyvalue -> option datetime.
Variable parse_scalar : string -> option datetime.

(** X20. A file in which one of the three required columns goes under none
    of its accepted names, once the labels are normalized, is answered
    with "required columns missing"; nothing is imported. *)
Theorem upsert_missing_column (path : string) (df : DataFrame) (db : table) :
  df_empty (_norm_cols df) = false ->
  (forall x, In x TRAIN_NAMES -> ~ In x (map norm_label (df_columns df)))
  \/ (forall x, In x DEPT_NAMES -> ~ In x (map norm_label (df_columns df)))
  \/ (forall x, In x VTO_NAMES -> ~ In x (map norm_label (df_columns df))) ->
  upsert_from_csv parse_cell parse_scalar (CsvFile path df) db
  = (Ret (upsert_error "required columns missing"), db).
Proof.
  intros Hne Hmiss. unfold upsert_from_csv, read_rows. rewrite Hne.
  cbn [_norm_cols df_columns].
  destruct Hmiss as [H|[H|H]].
  - now rewrite (_pick_none (map norm_label (df_columns df)) TRAIN_NAMES H).
  - rewrite (_pick_none (map norm_label (df_columns df)) DEPT_NAMES H).
    now destruct (_pick _ TRAIN_NAMES).
  - rewrite (_pick_none (map norm_label (df_columns df)) VTO_NAMES H).
    destruct (_pick _ TRAIN_NAMES); [destruct (_pick _ DEPT_NAMES)|]; reflexivity.
Qed.

(** X21. After an import that returns, every row of the file was read
    without an exception, and the key of every row whose expiry
    normalized is in the table. *)
Theorem upsert_stores_every_row
  (src : csv_source) (db db' : table) (res : upsert_result) (rs : list csv_row) :
  upsert_from_csv parse_cell parse_scalar src db = (Ret res, db') ->
  read_rows parse_cell src = inr rs ->
  Forall (fun r =>
            exists o, row_outcome parse_scalar r = Ret o
                      /\ forall rec, o = Some rec ->
                           exists c, In c db' /\ full_key c = full_key rec) rs.
Proof.
  rewrite upsert_from_csv_pure. intros Hrun Hread. rewrite Hread in Hrun.
  destruct (pure_rows parse_scalar rs (O, O) db) as [[counts T]|e] eqn:Hp;
    [|discriminate].
  injection Hrun as _ <-.
  pose proof (pure_rows_settles parse_scalar rs _ _ _ _ Hp) as Hset.
  eapply List.Forall_impl; [|exact Hset]. cbn beta.
  intros r (o & Ho & Hkey). exists o. split; [exact Ho|].
  intros rec Hrec. specialize (Hkey rec Hrec).
  apply existsb_exists in Hkey as (c & Hc & Hk).
  exists c. split; [exact Hc|]. symmetry. now apply same_key_full_key.
Qed.

End UpsertColumns.

Lemma upsert_missing_column_witness :
  upsert_from_csv sample_parse_cell sample_parse_scalar no_dept_csv history_db
  = (Ret (upsert_error "required columns missing"), history_db).
Proof.
  apply upsert_missing_column; [reflexivity|].
  right; left. vm_compute. intros x Hx Hin.
  repeat (destruct Hx as [<-|Hx];
          [repeat (destruct Hin as [Hin|Hin]; [discriminate|]); exact Hin|]).
  exact Hx.
Defined.

Lemma upsert_stores_every_row_witness :
  Forall (fun r =>
            exists o, row_outcome sample_parse_scalar r = Ret o
                      /\ forall rec, o = Some rec ->
                           exists c,
                             In c (snd (upsert_from_csv sample_parse_cell
                                          sample_parse_scalar history_csv []))
                             /\ full_key c = full_key rec)
    (match read_rows sample_parse_cell history_csv with
     | inr rs => rs
     | inl _ => []
     end).
Proof.
  apply (upsert_stores_every_row sample_parse_cell sample_parse_scalar history_csv []
           _ (mk_upsert 2 0 None (Some "ok"))).
  - vm_compute. reflexivity.
  - vm_compute. reflexivity.
Defined.

(** *** The sample table and its constraints *)

Lemma history_db_store_ok : store_ok history_db.
Proof.
  split; [split|split].
  - apply history_db_ids.
  - repeat constructor; eexists; reflexivity.
  - unfold unique_key. vm_compute.
    repeat (constructor; [simpl; intuition discriminate|]). constructor.
  - repeat constructor.
Qed.

Lemma nil_store_ok : store_ok [].
Proof. repeat split; constructor. Qed.

Lemma update_changes_only_on_success_witness :
  history_db = history_db
  \/ Ret (mk_update 0 (Some "valid_to must be a valid date")) = Ret (mk_update 1 None).
Proof.
  apply (update_changes_only_on_success sample_parse_scalar 1 bad_patch history_db).
  vm_compute. reflexivity.
Defined.

Lemma add_changes_only_on_success_witness :
  history_db = history_db
  \/ exists i, Raise (IntegrityError "uq_cert_train_dept_to") = Ret (AddedId i).
Proof.
  apply (add_changes_only_on_success sample_parse_scalar duplicate_record history_db).
  vm_compute. reflexivity.
Defined.

Lemma add_appends_one_row_witness :
  exists c,
    snd (add_certificate sample_parse_scalar new_record history_db) = history_db ++ [c]
    /\ Certificate.id c = Some 4
    /\ Certificate.dept c = "TEL".
Proof.
  destruct (add_appends_one_row sample_parse_scalar new_record history_db
              (snd (add_certificate sample_parse_scalar new_record history_db))
              (Some 4))
    as (n & c & Hn & Hdb & Hid & _ & _ & Hdept & _).
  - vm_compute. reflexivity.
  - exists c. split; [exact Hdb|]. injection Hn as <-. split; [exact Hid|].
    rewrite Hdept. vm_compute. reflexivity.
Defined.

Lemma add_requires_three_fields_witness :
  add_certificate sample_parse_scalar no_dept_record history_db
  = (Ret (AddError ADD_REQUIRED), history_db).
Proof.
  apply (add_requires_three_fields sample_parse_scalar no_dept_record history_db
           (Some (Cal.at_midnight 2030 1 1))).
  - vm_compute. reflexivity.
  - right; left. vm_compute. reflexivity.
Defined.

Lemma add_keeps_constraints_witness :
  store_ok (snd (add_certificate sample_parse_scalar new_record history_db)).
Proof.
  apply (add_keeps_constraints sample_parse_scalar new_record history_db _
           (Ret (AddedId (Some 4)))).
  - apply history_db_store_ok.
  - vm_compute. reflexivity.
Defined.

Lemma update_unknown_id_witness :
  update_certificate sample_parse_scalar 7 other_patch history_db
  = (Ret (mk_update 0 (Some "not found")), history_db).
Proof.
  apply update_unknown_id.
  - unfold sqlite_int. lia.
  - intros c Hc.
    repeat (destruct Hc as [<-|Hc]; [discriminate|]). destruct Hc.
Defined.

Lemma update_keeps_rows_and_ids_witness :
  map Certificate.id (snd (update_certificate sample_parse_scalar 2 other_patch history_db))
  = map Certificate.id history_db
  /\ forall x, In x history_db -> Certificate.id x <> Some 2 ->
               In x (snd (update_certificate sample_parse_scalar 2 other_patch history_db)).
Proof.
  apply (update_keeps_rows_and_ids sample_parse_scalar 2 other_patch history_db _
           (Ret (mk_update 1 None))).
  vm_compute. reflexivity.
Defined.

Lemma update_keeps_constraints_witness :
  store_ok (snd (update_certificate sample_parse_scalar 2 other_patch history_db)).
Proof.
  apply (update_keeps_constraints sample_parse_scalar 2 other_patch history_db _
           (Ret (mk_update 1 None))).
  - apply history_db_store_ok.
  - vm_compute. reflexivity.
Defined.

Lemma delete_keeps_constraints_witness :
  store_ok (snd (delete_certificate 2 history_db)).
Proof.
  apply (delete_keeps_constraints 2 history_db _ (Ret (mk_delete 1 None))).
  - apply history_db_store_ok.
  - vm_compute. reflexivity.
Defined.

Lemma upsert_accounts_for_every_row_witness :
  exists rs suffix,
    read_rows sample_parse_cell history_csv = inr rs
    /\ snd (upsert_from_csv sample_parse_cell sample_parse_scalar history_csv []) = [] ++ suffix
    /\ length suffix = 2%nat
    /\ (2 + 0 = length rs)%nat
    /\ Forall (fun c => Certificate.source c = Some "csv-import") suffix.
Proof.
  apply (upsert_accounts_for_every_row sample_parse_cell sample_parse_scalar
           history_csv [] _ (mk_upsert 2 0 None (Some "ok"))).
  vm_compute. reflexivity.
Defined.

Lemma upsert_raise_keeps_table_witness :
  snd (upsert_from_csv sample_parse_cell sample_parse_scalar bad_expiry_csv history_db)
  = history_db.
Proof.
  apply (upsert_raise_keeps_table sample_parse_cell sample_parse_scalar
           bad_expiry_csv history_db _ (ValueError "Naive time - no tzinfo set")).
  vm_compute. reflexivity.
Defined.

Lemma upsert_keeps_constraints_witness :
  store_ok (snd (upsert_from_csv sample_parse_cell sample_parse_scalar history_csv [])).
Proof.
  apply (upsert_keeps_constraints sample_parse_cell sample_parse_scalar history_csv []
           _ (Ret (mk_upsert 2 0 None (Some "ok")))).
  - apply nil_store_ok.
  - vm_compute. reflexivity.
Defined.

Lemma history_db_dates_ok : dates_ok history_db.
Proof. repeat constructor. Qed.

Lemma expiring_db_dates_ok : dates_ok expiring_db.
Proof. repeat constructor. Qed.

(** Three rows are reported within 60 days, stored in the order 16, 46,
    6 days and reported in the order 6, 16, 46. *)
Lemma expiring_within_sorted_witness :
  exists report,
    expiring_within sample_parse_cell sample_parse_scalar 60 None sample_now expiring_db
    = (Ret report, expiring_db)
    /\ map days_to_expiry report = [6; 16; 46]
    /\ map train_id report = ["T3"; "T1"; "T2"]
    /\ Sorted.StronglySorted (fun a b => expiring_leb a b = true) report
    /\ Sorted.StronglySorted (fun a b => days_to_expiry a <= days_to_expiry b) report.
Proof.
  destruct (expiring_within_sorted sample_parse_cell sample_parse_scalar
              60 sample_now expiring_db expiring_db_dates_ok)
    as (report & Hrun & Hkey & Hdays).
  exists report. split; [exact Hrun|].
  assert (Hrep := Hrun). vm_compute in Hrep. injection Hrep as <-.
  split; [reflexivity|]. split; [reflexivity|]. split; [exact Hkey|exact Hdays].
Defined.

(** Of the three rows reported within 60 days, two are within 30. *)
Lemma expiring_within_narrower_window_witness :
  exists report report',
    expiring_within sample_parse_cell sample_parse_scalar 30 None sample_now expiring_db
    = (Ret report, expiring_db)
    /\ expiring_within sample_parse_cell sample_parse_scalar 60 None sample_now expiring_db
       = (Ret report', expiring_db)
    /\ map days_to_expiry report = [6; 16]
    /\ map days_to_expiry report' = [6; 16; 46]
    /\ report = List.filter (fun r => days_to_expiry r <=? 30) report'.
Proof.
  destruct (expiring_within_narrower_window sample_parse_cell sample_parse_scalar
              30 60 sample_now expiring_db expiring_db_dates_ok)
    as (report & report' & Hrun & Hrun' & Hcut); [lia|].
  exists report, report'. split; [exact Hrun|]. split; [exact Hrun'|].
  assert (Hrep := Hrun). vm_compute in Hrep. injection Hrep as <-.
  assert (Hrep' := Hrun'). vm_compute in Hrep'. injection Hrep' as <-.
  split; [reflexivity|]. split; [reflexivity|]. exact Hcut.
Defined.

Lemma total_active_falls_over_time_witness :
  exists n n',
    total_active sample_parse_cell sample_parse_scalar None sample_now history_db
    = (Ret n, history_db)
    /\ total_active sample_parse_cell sample_parse_scalar None (sample_now + 1) history_db
       = (Ret n', history_db)
    /\ (n' <= n <= length history_db)%nat.
Proof.
  apply total_active_falls_over_time; [apply history_db_dates_ok|lia].
Defined.

(** *** A newer certificate supersedes the older ones *)

(** X30. When [add_certificate] returns an id, the row it appended carries
    it; and if the new expiry is later than that of every stored record
    of the same train and department, the new row is the one and only
    row of that pair among the latest rows the reporter queries read. *)
Theorem add_newer_supersedes
  (parse_scalar : string -> option datetime)
  (record : gmap string json) (db db' : table) (i : option Z) :
  add_certificate parse_scalar record db = (Ret (AddedId i), db') ->
  exists c,
    db' = db ++ [c]
    /\ Certificate.id c = i
    /\ ((forall r, In r db -> same_group c r = true ->
                   Certificate.valid_to r < Certificate.valid_to c) ->
        List.filter (same_group c) (latest_rows db') = [c]).
Proof.
  intros Hrun.
  destruct (add_certificate_cases parse_scalar record db db' _ Hrun)
    as [[_ Hno]|(c0 & Hr & -> & _)]; [now destruct (Hno i)|].
  injection Hr as ->.
  set (c := Certificate.with_id (next_id db) c0).
  exists c. split; [reflexivity|]. split; [reflexivity|]. intros Hnew.
  assert (In c (db ++ [c])) as Hc by (apply in_or_app; right; now left).
  assert (max_to (db ++ [c]) c = Certificate.valid_to c) as Hmax.
  { destruct (max_to_attained (db ++ [c]) c Hc) as (a & Ha & Hca & Hav).
    apply in_app_or in Ha as [Ha|[<-|[]]]; [|now symmetry].
    pose proof (Hnew a Ha Hca).
    pose proof (max_to_ge (db ++ [c]) c c Hc (same_group_refl c)). lia. }
  rewrite latest_rows_filter, !List.filter_app. cbn [List.filter].
  unfold is_latest at 2. rewrite Hmax, Z.eqb_refl. cbn [List.filter].
  rewrite same_group_refl. rewrite filter_nil_iff; [reflexivity|].
  intros r Hr. apply filter_In in Hr as [Hr Hlat].
  destruct (same_group c r) eqn:Hg; [|reflexivity]. exfalso.
  unfold is_latest in Hlat. apply Z.eqb_eq in Hlat.
  pose proof (Hnew r Hr Hg).
  assert (same_group r c = true) as Hg' by now rewrite same_group_sym.
  pose proof (max_to_ge (db ++ [c]) r c Hc Hg'). lia.
Qed.

Lemma add_newer_supersedes_witness :
  exists c,
    snd (add_certificate sample_parse_scalar newer_record history_db) = history_db ++ [c]
    /\ Certificate.id c = Some 4
    /\ List.filter (same_group c)
         (latest_rows (snd (add_certificate sample_parse_scalar newer_record history_db)))
       = [c].
Proof.
  destruct (add_newer_supersedes sample_parse_scalar newer_record history_db
              (snd (add_certificate sample_parse_scalar newer_record history_db))
              (Some 4))
    as (c & Hdb & Hid & Hlatest).
  - vm_compute. reflexivity.
  - exists c. split; [exact Hdb|]. split; [exact Hid|]. apply Hlatest.
    vm_compute in Hdb. injection Hdb as <-.
    intros r Hr Hg.
    repeat (destruct Hr as [<-|Hr]; [try discriminate Hg; vm_compute; reflexivity|]).
    destruct Hr.
Defined.
